(** * The game-starter template: presets, sprite factory and base character

    A shallow embedding of the three helpers of the game-starter template
    (the preset selector of [config.ts], the [SpriteFactory] class and the
    [BaseCharacter] class), and the properties of them that the
    specification states.

    Conventions of the embedding.
    - A JavaScript string is a [string]: a sequence of code units below 256.
    - The numbers of the preset tables and of the sprite factory, which are
      literals and positions, are rationals ([Q]).  The numbers of the
      character, which come from its callers, are finite rationals, [NaN]
      or an infinity; rounding is not modelled.
    - An object literal is the list of its own properties in insertion order;
      a property read that misses the own properties continues in
      [Object.prototype], as it does in the language.
    - Calls into the host engine (Phaser) are recorded in an explicit scene
      state. *)

From Stdlib Require Import List String Ascii Bool NArith ZArith QArith Qminmax Lia Lqa.
Import ListNotations.
Open Scope string_scope.

(** ** JavaScript values *)

Module Js.

#[local] Set Warnings "-register-all".

Inductive value : Type :=
| Undefined
| Null
| Bool (b : bool)
| Num (q : Q)
| Str (s : string)
| Arr (items : list value)
| Obj (props : list (string * value))
| Builtin (name : string).

(** The members every plain object inherits from [Object.prototype]
    (ECMAScript 2015 and its annex B). *)
Definition object_prototype_keys : list string :=
  [ "constructor"; "hasOwnProperty"; "isPrototypeOf"; "propertyIsEnumerable";
    "toLocaleString"; "toString"; "valueOf"; "__proto__";
    "__defineGetter__"; "__defineSetter__"; "__lookupGetter__";
    "__lookupSetter__" ].

Definition mem (k : string) (ks : list string) : bool :=
  existsb (String.eqb k) ks.

Fixpoint own {A : Type} (props : list (string * A)) (k : string) : option A :=
  match props with
  | [] => None
  | (k', v) :: rest => if String.eqb k k' then Some v else own rest k
  end.

Definition inherited (k : string) : value :=
  if mem k object_prototype_keys then Builtin k else Undefined.

(** [o[k]] on an object: the own properties first, then [Object.prototype].
    Of a built-in only the members it inherits from [Object.prototype] are
    modelled, and a read on a primitive gives [undefined]: the code reads
    no other member of a built-in and no member of a primitive.  Reading a
    member of [undefined] or [null] throws; where the code can do that, the
    read goes through [Sprites.member]. *)
Definition get (o : value) (k : string) : value :=
  match o with
  | Obj props =>
      match own props k with
      | Some v => v
      | None => inherited k
      end
  | Builtin _ => inherited k
  | _ => Undefined
  end.

Definition truthy (v : value) : bool :=
  match v with
  | Undefined | Null => false
  | Bool b => b
  | Num q => negb (Qeq_bool q 0)
  | Str s => negb (String.eqb s "")
  | Arr _ | Obj _ | Builtin _ => true
  end.

(** [a || b] on values already evaluated. *)
Definition or (a b : value) : value := if truthy a then a else b.

Definition is_object (v : value) : bool :=
  match v with Obj _ => true | _ => false end.

Definition is_number (v : value) : bool :=
  match v with Num _ => true | _ => false end.

(** A parameter with a default value: the default stands in when the
    argument is left out. *)
Definition default {A : Type} (d : A) (arg : option A) : A :=
  match arg with Some a => a | None => d end.

(** [String.prototype.toLowerCase] on code units below 256: the letters
    [A]-[Z] and the Latin-1 capitals U+00C0-U+00DE (U+00D7 is the
    multiplication sign) move up by 32. *)
Definition lower_char (c : ascii) : ascii :=
  let n := N_of_ascii c in
  if (((65 <=? n) && (n <=? 90)) ||
      ((192 <=? n) && (n <=? 222) && negb (n =? 215)))%N
  then ascii_of_N (n + 32) else c.

Fixpoint toLowerCase (s : string) : string :=
  match s with
  | EmptyString => EmptyString
  | String c rest => String (lower_char c) (toLowerCase rest)
  end.

Fixpoint startsWith (s p : string) {struct p} : bool :=
  match p with
  | EmptyString => true
  | String a p' =>
      match s with
      | EmptyString => false
      | String b s' => Ascii.eqb a b && startsWith s' p'
      end
  end.

(** [s.includes(sub)]: [sub] starts at some position of [s]. *)
Fixpoint includes (s sub : string) : bool :=
  startsWith s sub ||
  match s with
  | EmptyString => false
  | String _ s' => includes s' sub
  end.

End Js.

(** ** JavaScript numbers *)

Module Number.

(** A number is a finite value, [NaN] or an infinity.  Finite values are
    rationals: rounding, overflow and the sign of zero are not modelled. *)
Inductive num : Type :=
| Fin (q : Q)
| NaN
| PosInf
| NegInf.

Coercion Fin : Q >-> num.

Definition is_finite (x : num) : bool :=
  match x with Fin _ => true | _ => false end.

(** [-x] *)
Definition num_neg (x : num) : num :=
  match x with
  | Fin q => Fin (- q)
  | NaN => NaN
  | PosInf => NegInf
  | NegInf => PosInf
  end.

(** [x + y] *)
Definition num_add (x y : num) : num :=
  match x, y with
  | NaN, _ | _, NaN => NaN
  | Fin a, Fin b => Fin (a + b)
  | PosInf, NegInf | NegInf, PosInf => NaN
  | PosInf, _ | _, PosInf => PosInf
  | NegInf, _ | _, NegInf => NegInf
  end.

(** [x - y] *)
Definition num_sub (x y : num) : num := num_add x (num_neg y).

(** An infinity with the sign of [q], and [NaN] for zero. *)
Definition scaled_infinity (positive : bool) (q : Q) : num :=
  match Qcompare q 0 with
  | Eq => NaN
  | Gt => if positive then PosInf else NegInf
  | Lt => if positive then NegInf else PosInf
  end.

(** [x * y] *)
Definition num_mul (x y : num) : num :=
  match x, y with
  | NaN, _ | _, NaN => NaN
  | Fin a, Fin b => Fin (a * b)
  | PosInf, Fin q | Fin q, PosInf => scaled_infinity true q
  | NegInf, Fin q | Fin q, NegInf => scaled_infinity false q
  | PosInf, PosInf | NegInf, NegInf => PosInf
  | PosInf, NegInf | NegInf, PosInf => NegInf
  end.

(** [Math.min(x, y)] *)
Definition num_min (x y : num) : num :=
  match x, y with
  | NaN, _ | _, NaN => NaN
  | NegInf, _ | _, NegInf => NegInf
  | PosInf, z | z, PosInf => z
  | Fin a, Fin b => Fin (Qmin a b)
  end.

(** [x <= y]: false as soon as one side is [NaN]. *)
Definition num_le (x y : num) : bool :=
  match x, y with
  | NaN, _ | _, NaN => false
  | NegInf, _ | _, PosInf => true
  | PosInf, _ | _, NegInf => false
  | Fin a, Fin b => Qle_bool a b
  end.

(** [x > y]: false as soon as one side is [NaN]. *)
Definition num_gt (x y : num) : bool :=
  match x, y with
  | NaN, _ | _, NaN => false
  | _, PosInf | NegInf, _ => false
  | PosInf, _ | _, NegInf => true
  | Fin a, Fin b => negb (Qle_bool a b)
  end.

(** [x === 0] *)
Definition num_is_zero (x : num) : bool :=
  match x with Fin q => Qeq_bool q 0 | _ => false end.

(** Truthiness: [0] and [NaN] are falsy. *)
Definition num_truthy (x : num) : bool :=
  match x with
  | Fin q => negb (Qeq_bool q 0)
  | NaN => false
  | PosInf | NegInf => true
  end.

(** [opt || d] for an optional numeric field. *)
Definition num_or (opt : option num) (d : num) : num :=
  match opt with
  | Some v => if num_truthy v then v else d
  | None => d
  end.

End Number.

(** ** Methods that update an object and may throw *)

Module Effect.

Inductive error : Type := TypeError (message : string).

Inductive outcome (A : Type) : Type :=
| Returned (a : A)
| Thrown (e : error).
Arguments Returned {A} a.
Arguments Thrown {A} e.

(** A method body over a state [S]: it returns or throws, and what it did
    to the state before throwing stays done. *)
Definition M (S A : Type) : Type := S -> outcome A * S.

Definition ret {S A : Type} (a : A) : M S A := fun s => (Returned a, s).

Definition throw {S A : Type} (e : error) : M S A := fun s => (Thrown e, s).

Definition bind {S A B : Type} (m : M S A) (k : A -> M S B) : M S B :=
  fun s =>
    match m s with
    | (Returned a, s') => k a s'
    | (Thrown e, s') => (Thrown e, s')
    end.

Definition read {S A : Type} (f : S -> A) : M S A := fun s => (Returned (f s), s).

Definition modify {S : Type} (f : S -> S) : M S unit := fun s => (Returned tt, f s).

(** The state a call leaves, returned or thrown. *)
Definition after {S A : Type} (m : M S A) (s : S) : S := snd (m s).

Definition returned {S A : Type} (m : M S A) (s : S) : bool :=
  match fst (m s) with Returned _ => true | Thrown _ => false end.

(** Reading [member] of an [undefined] receiver. *)
Definition undefined_read (member : string) : error :=
  TypeError ("Cannot read properties of undefined (reading '" ++ member ++ "')").

Module Notations.
Notation "x <- m ;; k" := (bind m (fun x => k))
  (at level 61, m at next level, right associativity).
Notation "m ;;; k" := (bind m (fun _ => k))
  (at level 61, right associativity).
End Notations.

End Effect.

(** ** The preset selector ([config.ts]) *)

Module Presets.
Import Js.

(** The module-level state: the [GamePresets] table is a mutable object
    that any importer can reach. *)
Record store : Type := { st_GamePresets : value }.

Definition M (A : Type) : Type := store -> A * store.

Definition ret {A : Type} (a : A) : M A := fun st => (a, st).

Definition bind {A B : Type} (m : M A) (k : A -> M B) : M B :=
  fun st => let (a, st') := m st in k a st'.

Notation "x <- m ;; k" := (bind m (fun x => k))
  (at level 61, m at next level, right associativity).

Definition read_GamePresets : M value := fun st => (st_GamePresets st, st).

Definition write_GamePresets (v : value) : M unit :=
  fun _ => (tt, {| st_GamePresets := v |}).

Definition result {A : Type} (m : M A) (st : store) : A := fst (m st).
Definition store_after {A : Type} (m : M A) (st : store) : store := snd (m st).

Definition GamePresets : value :=
  Obj [
    ("platformer", Obj [
       ("physics", Obj [ ("gravity", Obj [ ("x", Num 0); ("y", Num 980) ]) ]);
       ("player", Obj [ ("speed", Num 200); ("jumpHeight", Num 400);
                        ("health", Num 3) ]);
       ("camera", Obj [ ("lerp", Num 0.1); ("deadzone", Num 50);
                        ("smooth", Bool true) ]);
       ("polish", Obj [ ("screenShake", Bool true); ("particles", Bool true);
                        ("tweenStyle", Str "aggressive");
                        ("soundLevel", Str "many") ]) ]);
    ("shooter", Obj [
       ("physics", Obj [ ("gravity", Obj [ ("x", Num 0); ("y", Num 0) ]) ]);
       ("player", Obj [ ("speed", Num 300); ("fireRate", Num 100);
                        ("health", Num 100) ]);
       ("camera", Obj [ ("smooth", Bool true); ("zoom", Num 1) ]);
       ("polish", Obj [ ("screenShake", Bool true); ("particles", Bool true);
                        ("tweenStyle", Str "aggressive");
                        ("soundLevel", Str "many") ]) ]);
    ("puzzle", Obj [
       ("physics", Obj [ ("gravity", Obj [ ("x", Num 0); ("y", Num 0) ]) ]);
       ("player", Obj [ ("speed", Num 0) ]);
       ("camera", Obj [ ("smooth", Bool false); ("zoom", Num 1) ]);
       ("polish", Obj [ ("screenShake", Bool false);
                        ("particles", Str "subtle");
                        ("tweenStyle", Str "smooth");
                        ("soundLevel", Str "moderate") ]) ]);
    ("rpg", Obj [
       ("physics", Obj [ ("gravity", Obj [ ("x", Num 0); ("y", Num 0) ]) ]);
       ("player", Obj [ ("speed", Num 150); ("health", Num 100) ]);
       ("camera", Obj [ ("lerp", Num 0.08); ("smooth", Bool true);
                        ("zoom", Num 2) ]);
       ("polish", Obj [ ("screenShake", Bool false);
                        ("particles", Str "subtle");
                        ("tweenStyle", Str "smooth");
                        ("soundLevel", Str "moderate") ]) ]);
    ("racing", Obj [
       ("physics", Obj [ ("gravity", Obj [ ("x", Num 0); ("y", Num 0) ]) ]);
       ("player", Obj [ ("speed", Num 400) ]);
       ("camera", Obj [ ("lerp", Num 0.15); ("smooth", Bool true) ]);
       ("polish", Obj [ ("screenShake", Bool true); ("particles", Bool true);
                        ("tweenStyle", Str "aggressive");
                        ("soundLevel", Str "many") ]) ]);
    ("zen", Obj [
       ("physics", Obj [ ("gravity", Obj [ ("x", Num 0); ("y", Num 100) ]) ]);
       ("player", Obj [ ("speed", Num 100) ]);
       ("camera", Obj [ ("lerp", Num 0.05); ("smooth", Bool true);
                        ("zoom", Num 1) ]);
       ("polish", Obj [ ("screenShake", Bool false); ("particles", Bool false);
                        ("tweenStyle", Str "gentle");
                        ("soundLevel", Str "minimal") ]) ]) ].

(** The store as the module leaves it after it is loaded. *)
Definition loaded : store := {| st_GamePresets := GamePresets |}.

(** The keyword table, local to [detectGameType]; [Object.entries] walks it
    in insertion order. *)
Definition patterns : list (string * list string) :=
  [ ("platformer", ["platform"; "jump"; "mario"; "sonic"; "metroidvania"]);
    ("shooter", ["shoot"; "gun"; "bullet"; "space"; "shmup"; "nave"]);
    ("puzzle", ["puzzle"; "match"; "tetris"; "candy"; "quebra"]);
    ("rpg", ["rpg"; "adventure"; "quest"; "inventory"; "dungeon"]);
    ("racing", ["race"; "racing"; "car"; "speed"; "corrida"]);
    ("zen", ["zen"; "calm"; "relax"; "meditation"; "peaceful"]) ].

(** [keywords.some(keyword => desc.includes(keyword))] *)
Definition some_included (desc : string) (keywords : list string) : bool :=
  existsb (fun keyword => includes desc keyword) keywords.

(** The [for ... of] loop with its early [return]. *)
Fixpoint first_match (desc : string) (entries : list (string * list string))
  : option string :=
  match entries with
  | [] => None
  | (type, keywords) :: rest =>
      if some_included desc keywords then Some type
      else first_match desc rest
  end.

Definition detectGameType (description : string) : M string :=
  let desc := toLowerCase description in
  match first_match desc patterns with
  | Some type => ret type
  | None => ret "platformer"
  end.

Definition getGamePreset (gameType : string) : M value :=
  presets <- read_GamePresets ;;
  ret (or (get presets gameType) (get presets "platformer")).

(** The six genre names, in the order of declaration. *)
Definition genres : list string :=
  ["platformer"; "shooter"; "puzzle"; "rpg"; "racing"; "zen"].

(** A keyword occurs in the input when, both put in lower case, it is a
    substring of it. *)
Definition occurs_ci (keyword input : string) : Prop :=
  exists pre post, toLowerCase input = pre ++ toLowerCase keyword ++ post.

Definition genre_matches (entry : string * list string) (input : string) : Prop :=
  exists keyword, In keyword (snd entry) /\ occurs_ci keyword input.

(** All four attribute groups of a preset are objects, and the physics
    group holds a gravity vector with numeric components. *)
Definition fully_populated (p : value) : bool :=
  is_object p &&
  is_object (get p "physics") &&
  is_object (get (get p "physics") "gravity") &&
  is_number (get (get (get p "physics") "gravity") "x") &&
  is_number (get (get (get p "physics") "gravity") "y") &&
  is_object (get p "player") &&
  is_object (get p "camera") &&
  is_object (get p "polish").

End Presets.

(** ** The base character ([BaseCharacter]) *)

Module Character.
Import Js Number Effect Effect.Notations.

Record CharacterConfig : Type := {
  cfg_x : num;
  cfg_y : num;
  cfg_texture : option string;
  cfg_speed : option num;
  cfg_jumpHeight : option num;
  cfg_health : option num;
  cfg_scale : option num
}.

Inductive side : Type := left | right.

(** The callbacks that the class hands to [scene.time.delayedCall]. *)
Inductive callback : Type :=
| EndInvulnerability                (* invulnerable = false; setAlpha(1) *)
| ClearTint                         (* clearTint() *)
| DestroyEmitter (id : nat)         (* emitter.destroy() *)
| EndPowerUp (originalSpeed : num). (* the reset at the end of powerUp *)

(** The tweens that the class starts; all of them target the character. *)
Inductive tween : Type :=
| SquashStretch   (* scaleX 1.2, scaleY 0.8, 100 ms, yoyo *)
| DeathSpin       (* alpha 0, scale 0, a full turn, 500 ms, then destroy() *)
| PulsingGlow.    (* scale 1.3, 500 ms, yoyo, repeated for ever *)

Inductive emitter_kind : Type :=
| Dust | HealGlow | DeathBurst | Trail (color : num).

Record emitter : Type := {
  em_x : num;
  em_y : num;
  em_kind : emitter_kind
}.

(** What the character has asked of its scene: pending delayed calls
    (delay and callback), running tweens, camera shakes (duration and
    intensity) and particle emitters, each with the identifier under which
    it was created. *)
Record scene : Type := {
  timers : list (num * callback);
  tweens : list tween;
  shakes : list (num * num);
  emitters : list (nat * emitter);
  next_id : nat
}.

(** [live] holds until [destroy()] has run: it stands for [this.scene] and
    [this.body] being defined, which the constructor makes them and only
    [destroy()] undoes. *)
Record character : Type := {
  pos_x : num;
  pos_y : num;
  texture : string;
  speed : num;
  jumpHeight : num;
  health : num;
  maxHealth : num;
  isJumping : bool;
  facing : side;
  invulnerable : bool;
  trail : option nat;
  alpha : num;
  tint : option num;
  scale : num;
  collideWorldBounds : bool;
  bounce : num;
  live : bool
}.

Record world : Type := { me : character; sc : scene }.

(** *** Field updates *)

Definition set_speed (v : num) (c : character) : character :=
  {| pos_x := pos_x c; pos_y := pos_y c; texture := texture c; speed := v;
     jumpHeight := jumpHeight c; health := health c;
     maxHealth := maxHealth c; isJumping := isJumping c; facing := facing c;
     invulnerable := invulnerable c; trail := trail c; alpha := alpha c;
     tint := tint c; scale := scale c;
     collideWorldBounds := collideWorldBounds c; bounce := bounce c;
     live := live c |}.

Definition set_health (v : num) (c : character) : character :=
  {| pos_x := pos_x c; pos_y := pos_y c; texture := texture c;
     speed := speed c; jumpHeight := jumpHeight c; health := v;
     maxHealth := maxHealth c; isJumping := isJumping c; facing := facing c;
     invulnerable := invulnerable c; trail := trail c; alpha := alpha c;
     tint := tint c; scale := scale c;
     collideWorldBounds := collideWorldBounds c; bounce := bounce c;
     live := live c |}.

Definition set_invulnerable (v : bool) (c : character) : character :=
  {| pos_x := pos_x c; pos_y := pos_y c; texture := texture c;
     speed := speed c; jumpHeight := jumpHeight c; health := health c;
     maxHealth := maxHealth c; isJumping := isJumping c; facing := facing c;
     invulnerable := v; trail := trail c; alpha := alpha c; tint := tint c;
     scale := scale c; collideWorldBounds := collideWorldBounds c;
     bounce := bounce c; live := live c |}.

Definition set_trail (v : option nat) (c : character) : character :=
  {| pos_x := pos_x c; pos_y := pos_y c; texture := texture c;
     speed := speed c; jumpHeight := jumpHeight c; health := health c;
     maxHealth := maxHealth c; isJumping := isJumping c; facing := facing c;
     invulnerable := invulnerable c; trail := v; alpha := alpha c;
     tint := tint c; scale := scale c;
     collideWorldBounds := collideWorldBounds c; bounce := bounce c;
     live := live c |}.

Definition set_alpha (v : num) (c : character) : character :=
  {| pos_x := pos_x c; pos_y := pos_y c; texture := texture c;
     speed := speed c; jumpHeight := jumpHeight c; health := health c;
     maxHealth := maxHealth c; isJumping := isJumping c; facing := facing c;
     invulnerable := invulnerable c; trail := trail c; alpha := v;
     tint := tint c; scale := scale c;
     collideWorldBounds := collideWorldBounds c; bounce := bounce c;
     live := live c |}.

Definition set_tint (v : option num) (c : character) : character :=
  {| pos_x := pos_x c; pos_y := pos_y c; texture := texture c;
     speed := speed c; jumpHeight := jumpHeight c; health := health c;
     maxHealth := maxHealth c; isJumping := isJumping c; facing := facing c;
     invulnerable := invulnerable c; trail := trail c; alpha := alpha c;
     tint := v; scale := scale c; collideWorldBounds := collideWorldBounds c;
     bounce := bounce c; live := live c |}.

Definition set_scale (v : num) (c : character) : character :=
  {| pos_x := pos_x c; pos_y := pos_y c; texture := texture c;
     speed := speed c; jumpHeight := jumpHeight c; health := health c;
     maxHealth := maxHealth c; isJumping := isJumping c; facing := facing c;
     invulnerable := invulnerable c; trail := trail c; alpha := alpha c;
     tint := tint c; scale := v; collideWorldBounds := collideWorldBounds c;
     bounce := bounce c; live := live c |}.

Definition set_live (v : bool) (c : character) : character :=
  {| pos_x := pos_x c; pos_y := pos_y c; texture := texture c;
     speed := speed c; jumpHeight := jumpHeight c; health := health c;
     maxHealth := maxHealth c; isJumping := isJumping c; facing := facing c;
     invulnerable := invulnerable c; trail := trail c; alpha := alpha c;
     tint := tint c; scale := scale c;
     collideWorldBounds := collideWorldBounds c; bounce := bounce c;
     live := v |}.

Definition on_me (f : character -> character) (w : world) : world :=
  {| me := f (me w); sc := sc w |}.

Definition on_scene (f : scene -> scene) (w : world) : world :=
  {| me := me w; sc := f (sc w) |}.

(** *** The host engine, as far as the class uses it *)

(** [this.scene.member]: a [TypeError] once the sprite is destroyed. *)
Definition this_scene (member : string) : M world unit :=
  fun w =>
    if live (me w) then (Returned tt, w)
    else (Thrown (undefined_read member), w).

(** [this.scene.time.delayedCall(delay, callback)] *)
Definition delayedCall (delay : num) (cb : callback) : M world unit :=
  this_scene "time" ;;;
  modify (on_scene (fun s =>
    {| timers := (timers s ++ [(delay, cb)])%list; tweens := tweens s;
       shakes := shakes s; emitters := emitters s; next_id := next_id s |})).

(** [this.scene.tweens.add({ targets: this, ... })] *)
Definition tweens_add (t : tween) : M world unit :=
  this_scene "tweens" ;;;
  modify (on_scene (fun s =>
    {| timers := timers s; tweens := (tweens s ++ [t])%list;
       shakes := shakes s; emitters := emitters s; next_id := next_id s |})).

(** [this.scene.tweens.killTweensOf(this)] *)
Definition killTweensOf_this : M world unit :=
  this_scene "tweens" ;;;
  modify (on_scene (fun s =>
    {| timers := timers s; tweens := [];
       shakes := shakes s; emitters := emitters s; next_id := next_id s |})).

(** [this.scene.cameras.main.shake(duration, intensity)] *)
Definition shake (duration intensity : num) : M world unit :=
  this_scene "cameras" ;;;
  modify (on_scene (fun s =>
    {| timers := timers s; tweens := tweens s;
       shakes := (shakes s ++ [(duration, intensity)])%list;
       emitters := emitters s; next_id := next_id s |})).

(** [this.scene.add.particles(x, y, 'particle', config)]: the identifier of
    the new emitter. *)
Definition add_particles (x y : num) (k : emitter_kind) : M world nat :=
  this_scene "add" ;;;
  fun w =>
    let id := next_id (sc w) in
    (Returned id,
     on_scene (fun s =>
       {| timers := timers s; tweens := tweens s; shakes := shakes s;
          emitters := (emitters s
                       ++ [(id, {| em_x := x; em_y := y; em_kind := k |})])%list;
          next_id := S id |}) w).

(** [emitter.destroy()] *)
Definition destroy_emitter (id : nat) : M world unit :=
  modify (on_scene (fun s =>
    {| timers := timers s; tweens := tweens s; shakes := shakes s;
       emitters := filter (fun e => negb (Nat.eqb (fst e) id)) (emitters s);
       next_id := next_id s |})).

(** The setters of the sprite work on its own fields, destroyed or not. *)
Definition setAlpha (a : num) : M world unit := modify (on_me (set_alpha a)).
Definition setTint (t : num) : M world unit := modify (on_me (set_tint (Some t))).
Definition clearTint : M world unit := modify (on_me (set_tint None)).
Definition setScale (v : num) : M world unit := modify (on_me (set_scale v)).

(** [this.destroy()]: the sprite leaves its scene and loses its body; a
    second call does nothing. *)
Definition destroy : M world unit := modify (on_me (set_live false)).

(** *** The class *)

(** The constructor.  The sprite starts opaque, untinted and at scale 1;
    [setCollideWorldBounds(true)] and [setBounce(0.2)] end the body.  The
    registration of the sprite with the scene and its physics world
    touches none of the fields below and is not recorded. *)
Definition create (config : CharacterConfig) (s : scene) : world :=
  let health0 := num_or (cfg_health config) 3 in
  {| me :=
       {| pos_x := cfg_x config;
          pos_y := cfg_y config;
          texture := match cfg_texture config with
                     | Some t => t            (* '' || '' is '' *)
                     | None => ""
                     end;
          speed := num_or (cfg_speed config) 200;
          jumpHeight := num_or (cfg_jumpHeight config) 400;
          health := health0;
          maxHealth := health0;
          isJumping := false;
          facing := right;
          invulnerable := false;
          trail := None;
          alpha := 1;
          tint := None;
          scale := match cfg_scale config with
                   | Some v => if num_truthy v then v else 1
                   | None => 1
                   end;
          collideWorldBounds := true;
          bounce := 0.2;
          live := true |};
     sc := s |}.

Definition flashRed : M world unit :=
  setTint 0xff0000 ;;;
  delayedCall 100 ClearTint.

Definition flashGreen : M world unit :=
  setTint 0x00ff00 ;;;
  delayedCall 200 ClearTint.

(** The guard [if (this.scene.add.particles)] of [die] and [heal] reads
    [this.scene.add], and is taken whenever that read succeeds: the
    factory of the engine has the method. *)
Definition die : M world unit :=
  tweens_add DeathSpin ;;;
  x <- read (fun w => pos_x (me w)) ;;
  y <- read (fun w => pos_y (me w)) ;;
  id <- add_particles x y DeathBurst ;;
  delayedCall 1000 (DestroyEmitter id).

Definition takeDamage (amount : option num) : M world unit :=
  let amount := default (Fin 1) amount in
  invulnerable_now <- read (fun w => invulnerable (me w)) ;;
  if invulnerable_now then ret tt
  else
    modify (on_me (fun c => set_health (num_sub (health c) amount) c)) ;;;
    flashRed ;;;
    shake 100 0.01 ;;;
    modify (on_me (set_invulnerable true)) ;;;
    setAlpha 0.5 ;;;
    delayedCall 1000 EndInvulnerability ;;;
    health_now <- read (fun w => health (me w)) ;;
    if num_le health_now 0 then die else ret tt.

Definition heal (amount : option num) : M world unit :=
  let amount := default (Fin 1) amount in
  modify (on_me (fun c =>
    set_health (num_min (num_add (health c) amount) (maxHealth c)) c)) ;;;
  flashGreen ;;;
  x <- read (fun w => pos_x (me w)) ;;
  y <- read (fun w => pos_y (me w)) ;;
  id <- add_particles x y HealGlow ;;
  delayedCall 500 (DestroyEmitter id).

Definition addTrail (color : option num) : M world unit :=
  let color := default (Fin 0xffff00) color in
  old <- read (fun w => trail (me w)) ;;
  match old with
  | Some id => destroy_emitter id
  | None => ret tt
  end ;;;
  id <- add_particles 0 0 (Trail color) ;;
  modify (on_me (set_trail (Some id))).

Definition powerUp (duration : option num) : M world unit :=
  let duration := default (Fin 5000) duration in
  setScale 1.2 ;;;
  addTrail (Some (Fin 0xffff00)) ;;;
  tweens_add PulsingGlow ;;;
  originalSpeed <- read (fun w => speed (me w)) ;;
  modify (on_me (fun c => set_speed (num_mul (speed c) 1.5) c)) ;;;
  delayedCall duration (EndPowerUp originalSpeed).

(** The bodies of the delayed callbacks. *)
Definition run_callback (cb : callback) : M world unit :=
  match cb with
  | EndInvulnerability =>
      modify (on_me (set_invulnerable false)) ;;;
      setAlpha 1
  | ClearTint => clearTint
  | DestroyEmitter id => destroy_emitter id
  | EndPowerUp originalSpeed =>
      setScale 1 ;;;
      modify (on_me (set_speed originalSpeed)) ;;;
      old <- read (fun w => trail (me w)) ;;
      match old with
      | Some id => destroy_emitter id ;;; modify (on_me (set_trail None))
      | None => ret tt
      end ;;;
      killTweensOf_this
  end.

(** The engine fires the [n]-th pending delayed call, if there is one. *)
Definition fire (n : nat) (w : world) : world :=
  match nth_error (timers (sc w)) n with
  | Some (_, cb) =>
      let w := on_scene (fun s =>
        {| timers := (firstn n (timers s) ++ skipn (S n) (timers s))%list;
           tweens := tweens s; shakes := shakes s; emitters := emitters s;
           next_id := next_id s |}) w in
      after (run_callback cb) w
  | None => w
  end.

(** The engine completes the [n]-th running tween, if there is one and it
    ever ends: the pulsing glow repeats for ever, the squash just ends, and
    the death spin ends with [onComplete: () => this.destroy()]. *)
Definition complete (n : nat) (w : world) : world :=
  match nth_error (tweens (sc w)) n with
  | Some PulsingGlow | None => w
  | Some t =>
      let w := on_scene (fun s =>
        {| timers := timers s;
           tweens := (firstn n (tweens s) ++ skipn (S n) (tweens s))%list;
           shakes := shakes s; emitters := emitters s;
           next_id := next_id s |}) w in
      match t with
      | DeathSpin => after destroy w
      | _ => w
      end
  end.

(** What can happen to a character: a call of one of its three
    health-and-power methods, a delayed call coming due, or a tween
    completing.  A call that throws leaves the character as it was at the
    throw. *)
Inductive event : Type :=
| TakeDamage (amount : option num)
| Heal (amount : option num)
| PowerUp (duration : option num)
| TimerFires (n : nat)
| TweenCompletes (n : nat).

Definition step (e : event) (w : world) : world :=
  match e with
  | TakeDamage amount => after (takeDamage amount) w
  | Heal amount => after (heal amount) w
  | PowerUp duration => after (powerUp duration) w
  | TimerFires n => fire n w
  | TweenCompletes n => complete n w
  end.

Fixpoint run (es : list event) (w : world) : world :=
  match es with
  | [] => w
  | e :: rest => run rest (step e w)
  end.

(** The amounts that keep the health a number within its maximum: a finite
    damage that is not negative, a finite heal. *)
Definition amount_admissible (e : event) : Prop :=
  match e with
  | TakeDamage amount => exists a, default (Fin 1) amount = Fin a /\ 0 <= a
  | Heal amount => is_finite (default (Fin 1) amount) = true
  | _ => True
  end.

Definition empty_scene : scene :=
  {| timers := []; tweens := []; shakes := []; emitters := []; next_id := O |}.

Definition plain_config : CharacterConfig :=
  {| cfg_x := 100; cfg_y := 300; cfg_texture := None; cfg_speed := None;
     cfg_jumpHeight := None; cfg_health := None; cfg_scale := None |}.

End Character.

(** ** The sprite factory ([SpriteFactory]) *)

Module Sprites.
Import Js.

(** *** The host engine, as far as the factory uses it

    Every [scene.add.*] call creates one game object, numbered in the
    order of creation, at the position it is given. *)

Inductive graphics_command : Type :=
| FillStyle (color : Q)
| FillRect (x y width height : Q)
| FillEllipse (x y width height : Q)
| FillTriangle (x0 y0 x1 y1 x2 y2 : Q).

Inductive shape : Type :=
| Rectangle (x y width height : Q) (fillColor : value) (fillAlpha : option Q)
| Circle (x y radius : Q) (fillColor : value)
| Triangle (x y x1 y1 x2 y2 x3 y3 : Q) (fillColor : value)
| Polygon (x y : Q) (points : string) (fillColor : value)
| Star (x y points innerRadius outerRadius : Q) (fillColor : value)
| Graphics (commands : list graphics_command).

Record primitive : Type := { pr_id : nat; pr_shape : shape }.

Record Container : Type := {
  ct_id : nat;
  ct_x : Q;
  ct_y : Q;
  ct_children : list primitive
}.

Record Text : Type := {
  tx_id : nat;
  tx_x : Q;
  tx_y : Q;
  tx_text : string;
  tx_fontSize_px : Q;          (* fontSize is the size followed by px *)
  tx_fontFamily : string;
  tx_origin : Q
}.

Record ParticleEmitter : Type := {
  pe_id : nat;
  pe_x : Q;
  pe_y : Q;
  pe_texture : string;
  pe_config : value
}.

Inductive tween_goal : Type :=
| To (v : Q)
| FullTurn.                    (* Math.PI * 2 *)

Record tween : Type := {
  tw_target : nat;
  tw_property : string;
  tw_goal : tween_goal;
  tw_duration : Q;
  tw_yoyo : bool;
  tw_repeat : Q;               (* 0 when the configuration has none *)
  tw_ease : option string
}.

Record scene : Type := {
  next_id : nat;
  textures : list (string * Q * Q);
  tweens : list tween;
  timers : list (Q * nat);     (* delay, and the emitter to destroy *)
  destroyed : list nat
}.

Inductive error : Type := TypeError (message : string).

Inductive outcome (A : Type) : Type :=
| Returned (a : A)
| Thrown (e : error).
Arguments Returned {A} a.
Arguments Thrown {A} e.

(** A method body: it runs against the scene and returns or throws; what
    it did to the scene before throwing stays done. *)
Definition M (A : Type) : Type := scene -> outcome A * scene.

Definition ret {A : Type} (a : A) : M A := fun s => (Returned a, s).

Definition throw {A : Type} (e : error) : M A := fun s => (Thrown e, s).

Definition bind {A B : Type} (m : M A) (k : A -> M B) : M B :=
  fun s =>
    match m s with
    | (Returned a, s') => k a s'
    | (Thrown e, s') => (Thrown e, s')
    end.

Notation "x <- m ;; k" := (bind m (fun x => k))
  (at level 61, m at next level, right associativity).
Notation "m ;;; k" := (bind m (fun _ => k))
  (at level 61, right associativity).

Definition fresh : M nat :=
  fun s =>
    (Returned (next_id s),
     {| next_id := S (next_id s); textures := textures s; tweens := tweens s;
        timers := timers s; destroyed := destroyed s |}).

Definition add_shape (sh : shape) : M primitive :=
  id <- fresh ;; ret {| pr_id := id; pr_shape := sh |}.

Definition add_container (x y : Q) : M Container :=
  id <- fresh ;; ret {| ct_id := id; ct_x := x; ct_y := y; ct_children := [] |}.

Definition add_text (x y : Q) (text : string) (size : Q) (family : string)
  : M Text :=
  id <- fresh ;;
  ret {| tx_id := id; tx_x := x; tx_y := y; tx_text := text;
         tx_fontSize_px := size; tx_fontFamily := family; tx_origin := 0 |}.

Definition setOrigin (o : Q) (t : Text) : Text :=
  {| tx_id := tx_id t; tx_x := tx_x t; tx_y := tx_y t; tx_text := tx_text t;
     tx_fontSize_px := tx_fontSize_px t; tx_fontFamily := tx_fontFamily t;
     tx_origin := o |}.

Definition add_particles (x y : Q) (texture : string) (config : value)
  : M ParticleEmitter :=
  id <- fresh ;;
  ret {| pe_id := id; pe_x := x; pe_y := y; pe_texture := texture;
         pe_config := config |}.

(** [container.add(children)] *)
Definition container_add (c : Container) (children : list primitive) : Container :=
  {| ct_id := ct_id c; ct_x := ct_x c; ct_y := ct_y c;
     ct_children := (ct_children c ++ children)%list |}.

(** A drawing command on a graphics object. *)
Definition draw (g : primitive) (cmd : graphics_command) : primitive :=
  match pr_shape g with
  | Graphics cmds =>
      {| pr_id := pr_id g; pr_shape := Graphics (cmds ++ [cmd])%list |}
  | _ => g
  end.

Definition tweens_add (t : tween) : M unit :=
  fun s =>
    (Returned tt,
     {| next_id := next_id s; textures := textures s;
        tweens := (tweens s ++ [t])%list;
        timers := timers s; destroyed := destroyed s |}).

Definition generateTexture (key : string) (width height : Q) : M unit :=
  fun s =>
    (Returned tt,
     {| next_id := next_id s;
        textures := (textures s ++ [(key, width, height)])%list;
        tweens := tweens s; timers := timers s; destroyed := destroyed s |}).

Definition destroy (id : nat) : M unit :=
  fun s =>
    (Returned tt,
     {| next_id := next_id s; textures := textures s; tweens := tweens s;
        timers := timers s; destroyed := (destroyed s ++ [id])%list |}).

(** [scene.time.delayedCall(delay, () => emitter.destroy())] *)
Definition delayedCall_destroy (delay : Q) (id : nat) : M unit :=
  fun s =>
    (Returned tt,
     {| next_id := next_id s; textures := textures s; tweens := tweens s;
        timers := (timers s ++ [(delay, id)])%list;
        destroyed := destroyed s |}).

(** [o.k] as an expression: reading a property of [undefined] or [null]
    throws. *)
Definition member (o : value) (k : string) : M value :=
  match o with
  | Undefined | Null =>
      throw (TypeError ("Cannot read properties of undefined (reading '"
                          ++ k ++ "')"))
  | _ => ret (get o k)
  end.

(** *** The factory *)

Definition createCharacter (x y : Q) (type : option string) (color : option Q)
  : M Container :=
  let type := default "hero" type in
  let color := default 0x00ff00 color in
  container <- add_container x y ;;
  if String.eqb type "hero" then
    body <- add_shape (Rectangle 0 0 24 32 (Num color) None) ;;
    head <- add_shape (Circle 0 (-20) 12 (Num (color + 0x333333))) ;;
    eyeL <- add_shape (Circle (-4) (-22) 3 (Num 0xffffff)) ;;
    eyeR <- add_shape (Circle 4 (-22) 3 (Num 0xffffff)) ;;
    ret (container_add container [body; head; eyeL; eyeR])
  else if String.eqb type "enemy" then
    body <- add_shape (Triangle 0 0 (-15) 15 15 15 0 (-15) (Num 0xff0000)) ;;
    eyeL <- add_shape (Rectangle (-5) (-5) 4 2 (Num 0xffffff) None) ;;
    eyeR <- add_shape (Rectangle 5 (-5) 4 2 (Num 0xffffff) None) ;;
    ret (container_add container [body; eyeL; eyeR])
  else
    body <- add_shape (Circle 0 0 16 (Num 0xffcc00)) ;;
    eyeL <- add_shape (Circle (-5) (-3) 2 (Num 0x000000)) ;;
    eyeR <- add_shape (Circle 5 (-3) 2 (Num 0x000000)) ;;
    ret (container_add container [body; eyeL; eyeR]).

Definition colors : value :=
  Obj [
    ("grass", Obj [ ("main", Num 0x4a7c2e); ("shadow", Num 0x2d4a1c);
                    ("highlight", Num 0x6ba644) ]);
    ("stone", Obj [ ("main", Num 0x808080); ("shadow", Num 0x505050);
                    ("highlight", Num 0xa0a0a0) ]);
    ("ice", Obj [ ("main", Num 0x87ceeb); ("shadow", Num 0x4682b4);
                  ("highlight", Num 0xadd8e6) ]);
    ("metal", Obj [ ("main", Num 0x708090); ("shadow", Num 0x2f4f4f);
                    ("highlight", Num 0x778899) ]) ].

Definition createPlatform (x y width height : Q) (style : option string)
  : M Container :=
  let style := default "grass" style in
  container <- add_container x y ;;
  let palette := get colors style in
  shadowColor <- member palette "shadow" ;;
  shadow <- add_shape (Rectangle 2 2 width height shadowColor (Some 0.5)) ;;
  mainColor <- member palette "main" ;;
  main <- add_shape (Rectangle 0 0 width height mainColor None) ;;
  highlightColor <- member palette "highlight" ;;
  highlight <- add_shape (Rectangle 0 (- height / 4) (width - 4) 2
                                    highlightColor None) ;;
  ret (container_add container [shadow; main; highlight]).

(** The [switch] has no [default] case. *)
Definition createCollectible (x y : Q) (type : option string) : M Container :=
  let type := default "coin" type in
  container <- add_container x y ;;
  if String.eqb type "coin" then
    coin <- add_shape (Circle 0 0 10 (Num 0xffd700)) ;;
    inner <- add_shape (Circle 0 0 6 (Num 0xffed4e)) ;;
    let container := container_add container [coin; inner] in
    tweens_add {| tw_target := ct_id container; tw_property := "rotation";
                  tw_goal := FullTurn; tw_duration := 3000; tw_yoyo := false;
                  tw_repeat := -1; tw_ease := None |} ;;;
    ret container
  else if String.eqb type "gem" then
    gem <- add_shape (Polygon 0 0 "0,-12 8,-4 8,4 0,12 -8,4 -8,-4" (Num 0x00ffff)) ;;
    shine <- add_shape (Polygon 0 (-4) "0,-4 3,-1 3,1 0,4 -3,1 -3,-1" (Num 0xffffff)) ;;
    let container := container_add container [gem; shine] in
    tweens_add {| tw_target := ct_id container; tw_property := "scale";
                  tw_goal := To 1.2; tw_duration := 1000; tw_yoyo := true;
                  tw_repeat := -1; tw_ease := None |} ;;;
    ret container
  else if String.eqb type "star" then
    star <- add_shape (Star 0 0 5 8 16 (Num 0xffff00)) ;;
    let container := container_add container [star] in
    tweens_add {| tw_target := pr_id star; tw_property := "rotation";
                  tw_goal := FullTurn; tw_duration := 2000; tw_yoyo := false;
                  tw_repeat := -1; tw_ease := None |} ;;;
    ret container
  else if String.eqb type "heart" then
    heart <- add_shape (Graphics []) ;;
    let heart := draw heart (FillStyle 0xff0080) in
    let heart := draw heart (FillEllipse (-4) (-4) 10 10) in
    let heart := draw heart (FillEllipse 4 (-4) 10 10) in
    let heart := draw heart (FillTriangle (-7) 0 7 0 0 10) in
    let container := container_add container [heart] in
    tweens_add {| tw_target := ct_id container; tw_property := "scale";
                  tw_goal := To 1.1; tw_duration := 800; tw_yoyo := true;
                  tw_repeat := -1; tw_ease := Some "Sine.inOut" |} ;;;
    ret container
  else
    ret container.

Definition createEmoji (x y : Q) (emoji : string) (size : option Q) : M Text :=
  let size := default 32 size in
  text <- add_text x y emoji size "Arial, sans-serif" ;;
  let emojiSprite := setOrigin 0.5 text in
  ret emojiSprite.

Definition range (lo hi : Q) : value := Obj [ ("min", Num lo); ("max", Num hi) ].
Definition fromTo (a b : Q) : value := Obj [ ("start", Num a); ("end", Num b) ].

Definition configs (x y : Q) : value :=
  Obj [
    ("explosion", Obj [
       ("x", Num x); ("y", Num y);
       ("speed", range 100 300);
       ("scale", fromTo 1 0);
       ("blendMode", Str "ADD");
       ("lifespan", Num 300);
       ("quantity", Num 20);
       ("tint", Arr [Num 0xff0000; Num 0xff8800; Num 0xffff00]) ]);
    ("magic", Obj [
       ("x", Num x); ("y", Num y);
       ("speed", range 50 150);
       ("scale", fromTo 0.5 0);
       ("blendMode", Str "ADD");
       ("lifespan", Num 1000);
       ("quantity", Num 5);
       ("frequency", Num 100);
       ("tint", Arr [Num 0x00ffff; Num 0xff00ff; Num 0xffff00]);
       ("rotate", range 0 360) ]);
    ("dust", Obj [
       ("x", Num x); ("y", Num y);
       ("speed", range 20 40);
       ("scale", fromTo 0.3 0);
       ("lifespan", Num 500);
       ("quantity", Num 3);
       ("frequency", Num 50);
       ("tint", Num 0x808080);
       ("alpha", fromTo 0.5 0) ]);
    ("splash", Obj [
       ("x", Num x); ("y", Num y);
       ("speed", range 100 200);
       ("angle", range 250 290);
       ("scale", fromTo 0.4 0);
       ("lifespan", Num 400);
       ("quantity", Num 10);
       ("tint", Num 0x0088ff);
       ("gravityY", Num 300) ]) ].

Definition createParticleEffect (x y : Q) (type : option string)
  : M ParticleEmitter :=
  let type := default "explosion" type in
  graphics <- add_shape (Graphics []) ;;
  let graphics := draw graphics (FillStyle 0xffffff) in
  let graphics := draw graphics (FillRect 0 0 4 4) in
  generateTexture "particle" 4 4 ;;;
  destroy (pr_id graphics) ;;;
  emitter <- add_particles x y "particle" (get (configs x y) type) ;;
  if String.eqb type "explosion" || String.eqb type "splash" then
    delayedCall_destroy 1000 (pe_id emitter) ;;;
    ret emitter
  else
    ret emitter.

Definition empty_scene : scene :=
  {| next_id := O; textures := []; tweens := []; timers := []; destroyed := [] |}.

(** The outcome of a call, and what it returned. *)
Definition returns {A : Type} (m : M A) (s : scene) : option A :=
  match fst (m s) with
  | Returned a => Some a
  | Thrown _ => None
  end.

Definition throws {A : Type} (m : M A) (s : scene) : bool :=
  match fst (m s) with
  | Returned _ => false
  | Thrown _ => true
  end.

Definition platform_styles : list string := ["grass"; "stone"; "ice"; "metal"].
Definition character_types : list string := ["hero"; "enemy"; "npc"].
Definition collectible_types : list string := ["coin"; "gem"; "star"; "heart"].
Definition particle_types : list string := ["explosion"; "magic"; "dust"; "splash"].

End Sprites.

(** ** The rest of [BaseCharacter]: getters, movement, jumping *)

Module Motion.
Import Js Number Effect Effect.Notations Character.

Definition getHealth (w : world) : num := health (me w).
Definition getMaxHealth (w : world) : num := maxHealth (me w).

(** [this.health > 0] *)
Definition isAlive (w : world) : bool := num_gt (health (me w)) 0.

(** The calls a user of the class can make on its health, power and trail,
    and what the engine does on its own. *)
Inductive action : Type :=
| Method (e : event)
| AddTrail (color : option num)
| Die.

Definition act (a : action) (w : world) : world :=
  match a with
  | Method e => step e w
  | AddTrail color => after (addTrail color) w
  | Die => after die w
  end.

Fixpoint run_actions (acts : list action) (w : world) : world :=
  match acts with
  | [] => w
  | a :: rest => run_actions rest (act a w)
  end.

Definition is_trail (k : emitter_kind) : bool :=
  match k with Trail _ => true | _ => false end.

(** The trail emitters alive in the scene. *)
Definition trail_emitters (w : world) : list (nat * emitter) :=
  filter (fun e => is_trail (em_kind (snd e))) (emitters (sc w)).

(** The world with the delayed calls replaced. *)
Definition with_timers (ts : list (num * callback)) (w : world) : world :=
  on_scene (fun s =>
    {| timers := ts; tweens := tweens s; shakes := shakes s;
       emitters := emitters s; next_id := next_id s |}) w.

(** The arcade body of the sprite, which the constructor creates with
    [scene.physics.add.existing(this)], and the flip flag of the sprite.
    The body is there as long as the sprite is [live]: [destroy()] removes
    it, and what [phys] holds afterwards is out of reach. *)
Record body : Type := {
  velocity_x : num;
  velocity_y : num;
  blocked_down : bool;
  touching_down : bool;
  drag_x : num;
  drag_y : num
}.

Record actor : Type := {
  self : world;
  flipX : bool;
  phys : body
}.

Inductive direction : Type := go_left | go_right | stop.

Definition set_isJumping (v : bool) (c : character) : character :=
  {| pos_x := pos_x c; pos_y := pos_y c; texture := texture c;
     speed := speed c; jumpHeight := jumpHeight c; health := health c;
     maxHealth := maxHealth c; isJumping := v; facing := facing c;
     invulnerable := invulnerable c; trail := trail c; alpha := alpha c;
     tint := tint c; scale := scale c;
     collideWorldBounds := collideWorldBounds c; bounce := bounce c;
     live := live c |}.

Definition set_facing (v : side) (c : character) : character :=
  {| pos_x := pos_x c; pos_y := pos_y c; texture := texture c;
     speed := speed c; jumpHeight := jumpHeight c; health := health c;
     maxHealth := maxHealth c; isJumping := isJumping c; facing := v;
     invulnerable := invulnerable c; trail := trail c; alpha := alpha c;
     tint := tint c; scale := scale c;
     collideWorldBounds := collideWorldBounds c; bounce := bounce c;
     live := live c |}.

(** A method of the character proper, run on the actor. *)
Definition on_self {A : Type} (m : M world A) : M actor A :=
  fun a =>
    let (r, w) := m (self a) in
    (r, {| self := w; flipX := flipX a; phys := phys a |}).

(** [this.body.member]: a [TypeError] once the sprite is destroyed. *)
Definition this_body (member : string) : M actor unit :=
  fun a =>
    if live (me (self a)) then (Returned tt, a)
    else (Thrown (undefined_read member), a).

Definition setVelocityX (v : num) : M actor unit :=
  this_body "velocity" ;;;
  modify (fun a =>
    {| self := self a; flipX := flipX a;
       phys := {| velocity_x := v; velocity_y := velocity_y (phys a);
                  blocked_down := blocked_down (phys a);
                  touching_down := touching_down (phys a);
                  drag_x := drag_x (phys a); drag_y := drag_y (phys a) |} |}).

Definition setVelocityY (v : num) : M actor unit :=
  this_body "velocity" ;;;
  modify (fun a =>
    {| self := self a; flipX := flipX a;
       phys := {| velocity_x := velocity_x (phys a); velocity_y := v;
                  blocked_down := blocked_down (phys a);
                  touching_down := touching_down (phys a);
                  drag_x := drag_x (phys a); drag_y := drag_y (phys a) |} |}).

Definition setDrag (x y : num) : M actor unit :=
  this_body "drag" ;;;
  modify (fun a =>
    {| self := self a; flipX := flipX a;
       phys := {| velocity_x := velocity_x (phys a);
                  velocity_y := velocity_y (phys a);
                  blocked_down := blocked_down (phys a);
                  touching_down := touching_down (phys a);
                  drag_x := x; drag_y := y |} |}).

Definition setFlipX (v : bool) : M actor unit :=
  modify (fun a => {| self := self a; flipX := v; phys := phys a |}).

(** The physics step of the engine puts the body on the ground or lifts it
    off; nothing in the class does. *)
Definition with_ground (blocked touching : bool) (a : actor) : actor :=
  {| self := self a; flipX := flipX a;
     phys := {| velocity_x := velocity_x (phys a);
                velocity_y := velocity_y (phys a);
                blocked_down := blocked; touching_down := touching;
                drag_x := drag_x (phys a); drag_y := drag_y (phys a) |} |}.

(** [this.body?.blocked.down || this.body?.touching.down]: [undefined],
    which is falsy, without a body. *)
Definition onGround (a : actor) : bool :=
  live (me (self a)) && (blocked_down (phys a) || touching_down (phys a)).

Definition move (d : direction) : M actor unit :=
  match d with
  | go_left =>
      speed_now <- read (fun a => speed (me (self a))) ;;
      setVelocityX (num_neg speed_now) ;;;
      on_self (modify (on_me (set_facing left))) ;;;
      setFlipX true
  | go_right =>
      speed_now <- read (fun a => speed (me (self a))) ;;
      setVelocityX speed_now ;;;
      on_self (modify (on_me (set_facing right))) ;;;
      setFlipX false
  | stop => setVelocityX 0
  end.

(** The squash tween and the dust at the feet; the guard on
    [this.scene.add.particles] is as in [die] and [heal]. *)
Definition addJumpEffect : M world unit :=
  tweens_add SquashStretch ;;;
  x <- read (fun w => pos_x (me w)) ;;
  y <- read (fun w => pos_y (me w)) ;;
  id <- add_particles x (num_add y 16) Dust ;;
  delayedCall 200 (DestroyEmitter id).

Definition jump (allowDoubleJump : option bool) : M actor unit :=
  let allowDoubleJump := default false allowDoubleJump in
  grounded <- read onGround ;;
  jumpHeight_now <- read (fun a => jumpHeight (me (self a))) ;;
  jumping <- read (fun a => isJumping (me (self a))) ;;
  if grounded then
    setVelocityY (num_neg jumpHeight_now) ;;;
    on_self (modify (on_me (set_isJumping true))) ;;;
    on_self addJumpEffect
  else if allowDoubleJump && jumping then
    setVelocityY (num_mul (num_neg jumpHeight_now) 0.8) ;;;
    on_self (modify (on_me (set_isJumping false))) ;;;
    on_self addJumpEffect
  else ret tt.

(** [this.body?.velocity.x === 0] is false without a body. *)
Definition update : M actor unit :=
  grounded <- read onGround ;;
  (if grounded then on_self (modify (on_me (set_isJumping false)))
   else ret tt) ;;;
  still <- read (fun a =>
             live (me (self a)) && num_is_zero (velocity_x (phys a))) ;;
  if still then setDrag 100 0 else setDrag 0 0.

(** A new character in its scene: the sprite is not flipped and its body is
    at rest, in the air until the engine finds ground under it. *)
Definition spawn (config : CharacterConfig) (s : scene) : actor :=
  {| self := create config s;
     flipX := false;
     phys := {| velocity_x := 0; velocity_y := 0; blocked_down := false;
                touching_down := false; drag_x := 0; drag_y := 0 |} |}.

Inductive motion : Type :=
| Move (d : direction)
| Jump (allowDoubleJump : option bool)
| Update
| Ground (blocked touching : bool)       (* the physics step *)
| Act (a : action).

Definition drive (m : motion) (a : actor) : actor :=
  match m with
  | Move d => after (move d) a
  | Jump allowDoubleJump => after (jump allowDoubleJump) a
  | Update => after update a
  | Ground blocked touching => with_ground blocked touching a
  | Act x => {| self := act x (self a); flipX := flipX a; phys := phys a |}
  end.

Fixpoint drive_all (ms : list motion) (a : actor) : actor :=
  match ms with
  | [] => a
  | m :: rest => drive_all rest (drive m a)
  end.

End Motion.

(** * Properties *)

(** ** Substring search *)

Module JsFacts.
Import Js.

Lemma startsWith_spec (s p : string) :
  startsWith s p = true <-> exists post, s = p ++ post.
Proof.
  revert s; induction p as [|a p IH]; intros s; simpl.
  - split; [intros _; now exists s | reflexivity].
  - destruct s as [|b s]; simpl.
    + split; [discriminate | intros [post H]; discriminate].
    + rewrite andb_true_iff, Ascii.eqb_eq, IH. split.
      * intros [-> [post ->]]. now exists post.
      * intros [post H]. injection H as -> ->. split; [reflexivity | now exists post].
Qed.

Lemma includes_spec (s sub : string) :
  includes s sub = true <-> exists pre post, s = pre ++ sub ++ post.
Proof.
  induction s as [|c s IH].
  - simpl. rewrite orb_false_r, startsWith_spec. split.
    + intros [post H]. now exists "", post.
    + intros [pre [post H]]. destruct pre; [now exists post | discriminate].
  - cbn [includes]. rewrite orb_true_iff, startsWith_spec, IH. split.
    + intros [[post H] | [pre [post H]]].
      * now exists "", post.
      * exists (String c pre), post. simpl. now rewrite H.
    + intros [pre [post H]]. destruct pre as [|c' pre].
      * left. now exists post.
      * right. simpl in H. injection H as _ H. now exists pre, post.
Qed.

Lemma mem_In (k : string) (ks : list string) : mem k ks = true <-> In k ks.
Proof.
  unfold mem. rewrite existsb_exists. split.
  - intros [x [Hin Heq]]. apply String.eqb_eq in Heq. now subst.
  - intros Hin. exists k. split; [assumption | apply String.eqb_refl].
Qed.

Lemma own_none {A : Type} (props : list (string * A)) (k : string) :
  ~ In k (map fst props) -> own props k = None.
Proof.
  induction props as [|[k' v] rest IH]; simpl; [reflexivity|].
  intros H. destruct (String.eqb_spec k k') as [->|_].
  - exfalso. apply H. now left.
  - apply IH. intros Hin. apply H. now right.
Qed.

Lemma inherited_undefined (k : string) :
  ~ In k object_prototype_keys -> inherited k = Undefined.
Proof.
  intros H. unfold inherited.
  destruct (mem k object_prototype_keys) eqn:E; [|reflexivity].
  apply mem_In in E. contradiction.
Qed.

End JsFacts.

(** ** The preset selector *)

Module PresetsSpec.
Import Js JsFacts Presets.

Lemma keywords_lower_case (e : string * list string) (kw : string) :
  In e patterns -> In kw (snd e) -> toLowerCase kw = kw.
Proof.
  unfold patterns. intros He Hkw. simpl in He.
  repeat (destruct He as [<- | He]; [simpl in Hkw; intuition (subst; reflexivity) |]).
  contradiction.
Qed.

Lemma some_included_spec (desc : string) (keywords : list string) :
  some_included desc keywords = true <->
  exists kw, In kw keywords /\ exists pre post, desc = pre ++ kw ++ post.
Proof.
  unfold some_included. rewrite existsb_exists.
  split; intros [kw [Hin H]]; exists kw; split; trivial;
    now apply includes_spec.
Qed.

Lemma genre_matches_iff (e : string * list string) (input : string) :
  In e patterns ->
  genre_matches e input <-> some_included (toLowerCase input) (snd e) = true.
Proof.
  intros He. rewrite some_included_spec. unfold genre_matches, occurs_ci.
  split; intros [kw [Hin H]]; exists kw; split; trivial.
  - now rewrite (keywords_lower_case e kw He Hin) in H.
  - now rewrite (keywords_lower_case e kw He Hin).
Qed.

Lemma first_match_here (desc : string) (before : list (string * list string))
      (e : string * list string) (after : list (string * list string)) :
  (forall e', In e' before -> some_included desc (snd e') = false) ->
  some_included desc (snd e) = true ->
  first_match desc (before ++ e :: after)%list = Some (fst e).
Proof.
  induction before as [|[t ks] before IH]; intros Hbefore He; simpl.
  - destruct e as [t ks]; simpl in *. now rewrite He.
  - pose proof (Hbefore (t, ks) (or_introl eq_refl)) as Hhead.
    simpl in Hhead. rewrite Hhead.
    apply IH; [|assumption]. intros e' Hin. apply Hbefore. now right.
Qed.

Lemma first_match_none (desc : string) (entries : list (string * list string)) :
  (forall e, In e entries -> some_included desc (snd e) = false) ->
  first_match desc entries = None.
Proof.
  induction entries as [|[t ks] rest IH]; intros H; simpl; [reflexivity|].
  pose proof (H (t, ks) (or_introl eq_refl)) as Hhead.
  simpl in Hhead. rewrite Hhead.
  apply IH. intros e Hin. apply H. now right.
Qed.

Lemma first_match_declared (desc : string) (entries : list (string * list string))
      (t : string) :
  first_match desc entries = Some t -> In t (map fst entries).
Proof.
  induction entries as [|[t' ks] rest IH]; simpl; [discriminate|].
  destruct (some_included desc ks).
  - intros [= ->]. now left.
  - intros H. right. now apply IH.
Qed.

Lemma not_true_false (b : bool) : b <> true -> b = false.
Proof. now destruct b. Qed.

(** C1. For every input, [detectGameType] walks the genres in the order
    platformer, shooter, puzzle, rpg, racing, zen and returns the first one
    with a keyword that occurs, ignoring case, as a substring of the input;
    when no keyword of any genre occurs, as for the empty string, it returns
    ["platformer"].  The two examples of the specification are included. *)
Theorem detectGameType_first_match (st : store) (input : string) :
  map fst patterns = genres /\
  (forall before entry after,
      patterns = (before ++ entry :: after)%list ->
      (forall e, In e before -> ~ genre_matches e input) ->
      genre_matches entry input ->
      result (detectGameType input) st = fst entry) /\
  ((forall e, In e patterns -> ~ genre_matches e input) ->
   result (detectGameType input) st = "platformer") /\
  (forall e, In e patterns -> ~ genre_matches e "") /\
  result (detectGameType "I want a jumping platform game") st = "platformer" /\
  result (detectGameType "") st = "platformer".
Proof.
  split; [reflexivity|]. split; [|split; [|split; [|split; reflexivity]]].
  - intros before entry after Hsplit Hbefore Hentry.
    assert (Hin : forall e, In e (before ++ entry :: after)%list -> In e patterns)
      by (intros e He; now rewrite Hsplit).
    unfold result, detectGameType. rewrite Hsplit.
    rewrite (first_match_here (toLowerCase input) before entry after).
    + reflexivity.
    + intros e He. apply not_true_false. intros Hm.
      apply (Hbefore e He). apply genre_matches_iff; [|assumption].
      apply Hin, in_or_app. now left.
    + apply genre_matches_iff; [|assumption].
      apply Hin, in_or_app. right. now left.
  - intros Hnone. unfold result, detectGameType.
    rewrite (first_match_none (toLowerCase input) patterns); [reflexivity|].
    intros e He. apply not_true_false. intros Hm.
    apply (Hnone e He). now apply genre_matches_iff.
  - intros e He Hm. apply (genre_matches_iff e "" He) in Hm.
    revert Hm. unfold patterns in He. simpl in He.
    repeat (destruct He as [<- | He]; [discriminate |]). contradiction.
Qed.

Lemma detectGameType_first_match_witness :
  result (detectGameType "Space SHOOTER with cars") loaded = "shooter".
Proof.
  apply (proj1 (proj2 (detectGameType_first_match loaded "Space SHOOTER with cars"))
           [("platformer", ["platform"; "jump"; "mario"; "sonic"; "metroidvania"])]
           ("shooter", ["shoot"; "gun"; "bullet"; "space"; "shmup"; "nave"])
           [("puzzle", ["puzzle"; "match"; "tetris"; "candy"; "quebra"]);
            ("rpg", ["rpg"; "adventure"; "quest"; "inventory"; "dungeon"]);
            ("racing", ["race"; "racing"; "car"; "speed"; "corrida"]);
            ("zen", ["zen"; "calm"; "relax"; "meditation"; "peaceful"])]).
  - reflexivity.
  - intros e [<- | []] Hm.
    apply genre_matches_iff in Hm; [discriminate | simpl; tauto].
  - exists "shoot". split; [simpl; tauto|].
    exists "space ", "er with cars". reflexivity.
Defined.

(** The result is always one of the six declared genre names. *)
Lemma detectGameType_declared (st : store) (input : string) :
  In (result (detectGameType input) st) genres.
Proof.
  unfold result, detectGameType.
  destruct (first_match (toLowerCase input) patterns) as [t|] eqn:E.
  - apply first_match_declared in E. exact E.
  - simpl. tauto.
Qed.

Lemma getGamePreset_result (gameType : string) (st : store) :
  result (getGamePreset gameType) st
  = or (get (st_GamePresets st) gameType) (get (st_GamePresets st) "platformer").
Proof. reflexivity. Qed.

(** What holds of the fallback: a name that is neither a declared genre nor
    a member of [Object.prototype] selects the platformer preset. *)
Lemma getGamePreset_fallback (gameType : string) :
  ~ In gameType genres ->
  ~ In gameType object_prototype_keys ->
  result (getGamePreset gameType) loaded
  = result (getGamePreset "platformer") loaded.
Proof.
  intros Hgenre Hproto.
  rewrite !getGamePreset_result.
  assert (Hget : get (st_GamePresets loaded) gameType = Undefined).
  { unfold loaded, st_GamePresets, GamePresets, get.
    rewrite own_none by exact Hgenre.
    now apply inherited_undefined. }
  rewrite Hget. reflexivity.
Qed.

(** C2. The name ["constructor"] is not a declared genre, yet
    [getGamePreset] answers it with the member of that name that the table
    inherits from [Object.prototype], which is truthy, and not with the
    platformer preset; the same happens for every inherited member. *)
Theorem getGamePreset_inherited_member :
  ~ In "constructor" genres /\
  result (getGamePreset "constructor") loaded = Builtin "constructor" /\
  result (getGamePreset "constructor") loaded
  <> result (getGamePreset "platformer") loaded /\
  Forall (fun k => result (getGamePreset k) loaded = Builtin k)
         object_prototype_keys.
Proof.
  split; [|split; [reflexivity | split; [discriminate|]]].
  - simpl. intuition discriminate.
  - repeat (apply Forall_cons; [reflexivity|]). apply Forall_nil.
Qed.

(** C4. For each of the six declared genre names [getGamePreset] returns
    the entry of that name, an object whose physics (with a gravity vector
    of two numbers), player, camera and polish groups are all objects. *)
Theorem getGamePreset_fully_populated (gameType : string) :
  In gameType genres ->
  fully_populated (result (getGamePreset gameType) loaded) = true /\
  result (getGamePreset gameType) loaded = get GamePresets gameType.
Proof.
  intros H. simpl in H.
  repeat (destruct H as [<- | H]; [split; reflexivity |]). contradiction.
Qed.

Lemma getGamePreset_fully_populated_witness :
  fully_populated (result (getGamePreset "zen") loaded) = true /\
  result (getGamePreset "zen") loaded = get GamePresets "zen".
Proof.
  apply (getGamePreset_fully_populated "zen"). simpl. tauto.
Defined.

(** C6. [getGamePreset("puzzle").player.speed] is [0]. *)
Theorem getGamePreset_puzzle_speed :
  get (get (result (getGamePreset "puzzle") loaded) "player") "speed" = Num 0.
Proof. reflexivity. Qed.

(** A sequence of invocations of the two functions. *)
Inductive call : Type :=
| DetectGameType (description : string)
| GetGamePreset (gameType : string).

Definition invoke (c : call) : M unit :=
  match c with
  | DetectGameType description => _ <- detectGameType description ;; ret tt
  | GetGamePreset gameType => _ <- getGamePreset gameType ;; ret tt
  end.

Fixpoint invoke_all (cs : list call) : M unit :=
  match cs with
  | [] => ret tt
  | c :: rest => _ <- invoke c ;; invoke_all rest
  end.

Lemma detectGameType_store (description : string) (st : store) :
  store_after (detectGameType description) st = st.
Proof.
  unfold store_after, detectGameType.
  now destruct (first_match (toLowerCase description) patterns).
Qed.

Lemma getGamePreset_store (gameType : string) (st : store) :
  store_after (getGamePreset gameType) st = st.
Proof. reflexivity. Qed.

Lemma invoke_all_store (cs : list call) (st : store) :
  store_after (invoke_all cs) st = st.
Proof.
  revert st. induction cs as [|c rest IH]; intros st; [reflexivity|].
  unfold store_after in *. simpl. unfold bind at 1.
  destruct (invoke c st) as [u st'] eqn:E.
  assert (st' = st) as ->.
  { destruct c as [d|g]; simpl in E; unfold bind in E.
    - pose proof (detectGameType_store d st) as H. unfold store_after in H.
      destruct (detectGameType d st) as [r st'']. simpl in H. subst st''.
      now injection E as _ <-.
    - now injection E as _ <-. }
  apply IH.
Qed.

(** C7. [detectGameType] and [getGamePreset] leave the module state as they
    found it, whatever it is and however many invocations came before, so
    two invocations on the same input return the same result; the result
    of [detectGameType] does not depend on the state at all, its keyword
    table being rebuilt from the same literal at every call. *)
Theorem selector_pure (st st' : store) (cs : list call)
        (description gameType : string) :
  store_after (detectGameType description) st = st /\
  store_after (getGamePreset gameType) st = st /\
  store_after (invoke_all cs) st = st /\
  result (detectGameType description) (store_after (invoke_all cs) st)
  = result (detectGameType description) st /\
  result (getGamePreset gameType) (store_after (invoke_all cs) st)
  = result (getGamePreset gameType) st /\
  result (detectGameType description) st
  = result (detectGameType description) st'.
Proof.
  rewrite invoke_all_store.
  repeat split; try reflexivity.
  - apply detectGameType_store.
  - unfold result, detectGameType.
    now destruct (first_match (toLowerCase description) patterns).
Qed.

End PresetsSpec.


(** ** Methods that may throw *)

Module EffectFacts.
Import Effect.

(** [m] leaves [view] of the state as it found it, returning or throwing. *)
Definition frames {S A T : Type} (view : S -> T) (m : M S A) : Prop :=
  forall s, view (after m s) = view s.

(** [m] keeps [P], returning or throwing. *)
Definition preserves {S A : Type} (P : S -> Prop) (m : M S A) : Prop :=
  forall s, P s -> P (after m s).

Lemma after_bind {S A B : Type} (m : M S A) (k : A -> M S B) (s : S) :
  after (bind m k) s
  = match fst (m s) with
    | Returned a => after (k a) (after m s)
    | Thrown _ => after m s
    end.
Proof. unfold after, bind. now destruct (m s) as [[a|e] s']. Qed.

Lemma frames_ret {S A T : Type} (view : S -> T) (a : A) : frames view (ret a).
Proof. intros s. reflexivity. Qed.

Lemma frames_read {S A T : Type} (view : S -> T) (f : S -> A) :
  frames view (read f).
Proof. intros s. reflexivity. Qed.

Lemma frames_bind {S A B T : Type} (view : S -> T) (m : M S A) (k : A -> M S B) :
  frames view m -> (forall a, frames view (k a)) -> frames view (bind m k).
Proof.
  intros Hm Hk s. rewrite after_bind. destruct (fst (m s)).
  - now rewrite Hk, Hm.
  - apply Hm.
Qed.

Lemma preserves_ret {S A : Type} (P : S -> Prop) (a : A) : preserves P (ret a).
Proof. intros s H. exact H. Qed.

Lemma preserves_read {S A : Type} (P : S -> Prop) (f : S -> A) :
  preserves P (read f).
Proof. intros s H. exact H. Qed.

Lemma preserves_bind {S A B : Type} (P : S -> Prop) (m : M S A) (k : A -> M S B) :
  preserves P m -> (forall a, preserves P (k a)) -> preserves P (bind m k).
Proof.
  intros Hm Hk s H. rewrite after_bind. destruct (fst (m s)).
  - now apply Hk, Hm.
  - now apply Hm.
Qed.

(** A method that leaves alone all that [P] looks at keeps [P]. *)
Lemma frames_preserves {S A T : Type} (view : S -> T) (P : S -> Prop) (m : M S A) :
  (forall s s', view s' = view s -> P s -> P s') ->
  frames view m -> preserves P m.
Proof. intros HP Hm s H. exact (HP s _ (Hm s) H). Qed.

End EffectFacts.

(** ** The base character *)

Module CharacterSpec.
Import Js Number Effect Effect.Notations EffectFacts Character.

(** What [frames] comes to for one of the calls into the engine or one of
    the setters of the sprite. *)
Ltac frame_call :=
  let s := fresh "s" in
  intros s;
  cbv [after delayedCall tweens_add killTweensOf_this shake add_particles
       destroy_emitter setAlpha setTint clearTint setScale destroy
       bind modify read ret throw this_scene];
  try destruct (live (me s)); reflexivity.

Ltac frame :=
  repeat first
    [ apply frames_ret
    | apply frames_read
    | apply frames_bind; [|intros ?]
    | match goal with
      | |- frames _ (if ?b then _ else _) => destruct b
      | |- frames _ (match ?o with Some _ => _ | None => _ end) => destruct o
      end
    | solve [frame_call] ].

Lemma num_or_falsy (opt : option num) (d : num) :
  opt = None \/ (exists q, opt = Some (Fin q) /\ q == 0) -> num_or opt d = d.
Proof.
  intros [-> | [q [-> Hq]]]; simpl; [reflexivity|].
  apply Qeq_bool_iff in Hq. now rewrite Hq.
Qed.

(** The health and its maximum, together. *)
Definition vitals (w : world) : num * num := (health (me w), maxHealth (me w)).

Lemma die_vitals : frames vitals die.
Proof. unfold die. frame. Qed.

Lemma flashRed_vitals : frames vitals flashRed.
Proof. unfold flashRed. frame. Qed.

Lemma flashGreen_vitals : frames vitals flashGreen.
Proof. unfold flashGreen. frame. Qed.

Lemma addTrail_vitals (color : option num) : frames vitals (addTrail color).
Proof. unfold addTrail. frame. Qed.

Lemma powerUp_vitals (duration : option num) : frames vitals (powerUp duration).
Proof.
  unfold powerUp. cbv zeta.
  apply frames_bind; [frame|intros ?].
  apply frames_bind; [apply addTrail_vitals|intros ?].
  frame.
Qed.

Lemma run_callback_vitals (cb : callback) : frames vitals (run_callback cb).
Proof. destruct cb; unfold run_callback; frame. Qed.

Lemma fire_vitals (n : nat) (w : world) : vitals (fire n w) = vitals w.
Proof.
  unfold fire. destruct (nth_error (timers (sc w)) n) as [[d cb]|];
    [|reflexivity].
  now rewrite run_callback_vitals.
Qed.

Lemma complete_vitals (n : nat) (w : world) : vitals (complete n w) = vitals w.
Proof.
  unfold complete. destruct (nth_error (tweens (sc w)) n) as [[| |]|];
    reflexivity.
Qed.

(** After the health is set, nothing in [takeDamage] touches it. *)
Lemma takeDamage_vitals (amount : option num) (w : world) :
  vitals (after (takeDamage amount) w)
  = if invulnerable (me w) then vitals w
    else (num_sub (health (me w)) (default (Fin 1) amount), maxHealth (me w)).
Proof.
  unfold takeDamage. cbv zeta. rewrite after_bind. cbn [read fst after snd].
  destruct (invulnerable (me w)); [reflexivity|].
  rewrite after_bind. cbn [modify fst after snd].
  match goal with |- vitals (after ?m ?w') = _ =>
    transitivity (vitals w'); [|reflexivity];
    generalize w'; change (frames vitals m)
  end.
  apply frames_bind; [apply flashRed_vitals|intros ?].
  frame.
Qed.

Lemma heal_vitals (amount : option num) (w : world) :
  vitals (after (heal amount) w)
  = (num_min (num_add (health (me w)) (default (Fin 1) amount)) (maxHealth (me w)),
     maxHealth (me w)).
Proof.
  unfold heal. cbv zeta. rewrite after_bind. cbn [modify fst after snd].
  match goal with |- vitals (after ?m ?w') = _ =>
    transitivity (vitals w'); [|reflexivity];
    generalize w'; change (frames vitals m)
  end.
  apply frames_bind; [apply flashGreen_vitals|intros ?].
  frame.
Qed.

Lemma powerUp_vitals_after (duration : option num) (w : world) :
  vitals (after (powerUp duration) w) = vitals w.
Proof. apply powerUp_vitals. Qed.

Lemma step_maxHealth (e : event) (w : world) :
  maxHealth (me (step e w)) = maxHealth (me w).
Proof.
  change (snd (vitals (step e w)) = snd (vitals w)).
  destruct e; cbn [step].
  - rewrite takeDamage_vitals. now destruct (invulnerable (me w)).
  - now rewrite heal_vitals.
  - now rewrite powerUp_vitals_after.
  - now rewrite fire_vitals.
  - now rewrite complete_vitals.
Qed.

(** [health <= maxHealth], as the language compares them. *)
Definition within (w : world) : Prop :=
  num_le (health (me w)) (maxHealth (me w)) = true.

Lemma num_le_after_damage (h m : num) (a : Q) :
  0 <= a -> num_le h m = true -> num_le (num_sub h (Fin a)) m = true.
Proof.
  intros Ha. destruct h as [h| | |], m as [m| | |]; cbn; try easy.
  intros H. apply Qle_bool_iff in H. apply Qle_bool_iff. lra.
Qed.

Lemma num_le_after_heal (h m a : num) :
  is_finite a = true -> num_le h m = true ->
  num_le (num_min (num_add h a) m) m = true.
Proof.
  destruct a as [a| | |]; [intros _|discriminate..].
  destruct h as [h| | |], m as [m| | |]; cbn; try easy.
  intros _. apply Qle_bool_iff, Q.le_min_r.
Qed.

Lemma num_or_not_nan (opt : option num) (d : Q) :
  num_le (num_or opt d) (num_or opt d) = true.
Proof.
  destruct opt as [[q| | |]|]; cbn; try reflexivity;
    try destruct (Qeq_bool q 0); cbn; apply Qle_bool_iff, Qle_refl.
Qed.

Lemma step_within (e : event) (w : world) :
  amount_admissible e -> within w -> within (step e w).
Proof.
  unfold within. intros He Hw.
  change (num_le (fst (vitals (step e w))) (snd (vitals (step e w))) = true).
  destruct e; cbn [step amount_admissible] in *.
  - rewrite takeDamage_vitals. destruct (invulnerable (me w)); [exact Hw|].
    destruct He as [a [-> Ha]]. cbn [fst snd]. now apply num_le_after_damage.
  - rewrite heal_vitals. cbn [fst snd]. now apply num_le_after_heal.
  - now rewrite powerUp_vitals_after.
  - now rewrite fire_vitals.
  - now rewrite complete_vitals.
Qed.

Lemma run_maxHealth (es : list event) (w : world) :
  maxHealth (me (run es w)) = maxHealth (me w).
Proof.
  revert w. induction es as [|e rest IH]; intros w; simpl; [reflexivity|].
  now rewrite IH, step_maxHealth.
Qed.

Lemma run_within (es : list event) (w : world) :
  Forall amount_admissible es -> within w -> within (run es w).
Proof.
  intros Hes. revert w. induction Hes as [|e rest He _ IH]; intros w Hw; simpl.
  - assumption.
  - apply IH. now apply step_within.
Qed.

(** C8, as the code has it.  [maxHealth] is fixed at construction, whatever
    happens afterwards; [heal] sets the health to
    [Math.min(health + amount, maxHealth)], which for a finite amount does
    not exceed the maximum; and [health <= maxHealth] holds after every
    sequence of [takeDamage], [heal] and [powerUp] calls, of delayed calls
    coming due and of tweens completing, in which every amount is a finite
    number and no damage is negative. *)
Theorem health_bounded (config : CharacterConfig) (s : scene) (es : list event) :
  Forall amount_admissible es ->
  num_le (health (me (run es (create config s))))
         (maxHealth (me (run es (create config s)))) = true /\
  maxHealth (me (run es (create config s))) = maxHealth (me (create config s)) /\
  (forall amount,
      health (me (after (heal amount) (run es (create config s))))
      = num_min (num_add (health (me (run es (create config s))))
                         (default (Fin 1) amount))
                (maxHealth (me (run es (create config s))))) /\
  (forall amount,
      is_finite (default (Fin 1) amount) = true ->
      num_le (health (me (after (heal amount) (run es (create config s)))))
             (maxHealth (me (after (heal amount) (run es (create config s)))))
      = true).
Proof.
  intros Hes.
  assert (Hw : within (run es (create config s))).
  { apply run_within; [assumption|]. unfold within. cbn [create me health maxHealth].
    apply num_or_not_nan. }
  split; [exact Hw|]. split; [apply run_maxHealth|]. split.
  - intros amount.
    change (fst (vitals (after (heal amount) (run es (create config s)))) = 
            fst (num_min (num_add (health (me (run es (create config s))))
                                  (default (Fin 1) amount))
                         (maxHealth (me (run es (create config s)))),
                 maxHealth (me (run es (create config s))))).
    now rewrite heal_vitals.
  - intros amount Ha.
    exact (step_within (Heal amount) _ Ha Hw).
Qed.

Lemma health_bounded_witness :
  num_le
    (health (me (run [TakeDamage None; Heal (Some (Fin 5)); PowerUp None;
                      TimerFires 0; TweenCompletes 0]
                     (create plain_config empty_scene))))
    (maxHealth (me (run [TakeDamage None; Heal (Some (Fin 5)); PowerUp None;
                         TimerFires 0; TweenCompletes 0]
                        (create plain_config empty_scene)))) = true.
Proof.
  refine (proj1 (health_bounded plain_config empty_scene
                   [TakeDamage None; Heal (Some (Fin 5)); PowerUp None;
                    TimerFires 0; TweenCompletes 0] _)).
  apply Forall_cons; [exists 1; split; [reflexivity | discriminate]|].
  apply Forall_cons; [reflexivity|].
  repeat (apply Forall_cons; [exact I|]). apply Forall_nil.
Defined.

(** C8, as the specification has it, fails: damage by a negative amount
    lifts the health of a fresh character from 3 to 4, above its maximum
    of 3. *)
Lemma health_bounded_counterexample :
  num_le
    (health (me (run [TakeDamage (Some (Fin (-1)))]
                     (create plain_config empty_scene))))
    (maxHealth (me (run [TakeDamage (Some (Fin (-1)))]
                        (create plain_config empty_scene)))) = false.
Proof. reflexivity. Qed.

(** It fails as well, with no damage at all, when an amount is not a
    number: [heal(NaN)] leaves the health [NaN], which no comparison puts
    within the maximum. *)
Lemma health_not_a_number :
  health (me (run [Heal (Some NaN)] (create plain_config empty_scene))) = NaN /\
  num_le
    (health (me (run [Heal (Some NaN)] (create plain_config empty_scene))))
    (maxHealth (me (run [Heal (Some NaN)] (create plain_config empty_scene))))
  = false.
Proof. split; reflexivity. Qed.

(** A hit on an invulnerable character returns at the guard. *)
Lemma takeDamage_ignored (amount : option num) (w : world) :
  invulnerable (me w) = true -> takeDamage amount w = (Returned tt, w).
Proof.
  intros H. unfold takeDamage, bind, read. cbv zeta. now rewrite H.
Qed.

(** C9. While the character is invulnerable, [takeDamage] returns at once:
    the character and everything it has asked of its scene (delayed calls,
    tweens, shakes, emitters) are as before, so no death starts either. *)
Theorem takeDamage_invulnerable (amount : option num) (w : world) :
  invulnerable (me w) = true -> takeDamage amount w = (Returned tt, w).
Proof.
  intros H. unfold takeDamage. cbv zeta. unfold bind at 1, read.
  now rewrite H.
Qed.

Lemma takeDamage_invulnerable_witness :
  takeDamage (Some (Fin 2))
             (after (takeDamage None) (create plain_config empty_scene))
  = (Returned tt, after (takeDamage None) (create plain_config empty_scene)).
Proof.
  apply (takeDamage_invulnerable (Some (Fin 2))
           (after (takeDamage None) (create plain_config empty_scene))).
  reflexivity.
Defined.

(** C10. The constructor takes [0] for an omitted parameter: a speed, jump
    height or health that is absent or zero gives 200, 400 and 3 (the
    maximum follows the health); so the speed [0] of the puzzle preset does
    not get through it. *)
Theorem create_zero_as_omitted (config : CharacterConfig) (s : scene) :
  let c := me (create config s) in
  (cfg_speed config = None \/
   (exists q, cfg_speed config = Some (Fin q) /\ q == 0) ->
   speed c = Fin 200) /\
  (cfg_jumpHeight config = None \/
   (exists q, cfg_jumpHeight config = Some (Fin q) /\ q == 0) ->
   jumpHeight c = Fin 400) /\
  (cfg_health config = None \/
   (exists q, cfg_health config = Some (Fin q) /\ q == 0) ->
   health c = Fin 3 /\ maxHealth c = Fin 3) /\
  (forall q,
      get (get (Presets.result (Presets.getGamePreset "puzzle") Presets.loaded)
               "player") "speed" = Num q ->
      cfg_speed config = Some (Fin q) -> speed c = Fin 200).
Proof.
  cbn zeta. unfold create. cbn [me speed jumpHeight health maxHealth].
  split; [|split; [|split]].
  - apply num_or_falsy.
  - apply num_or_falsy.
  - intros H. rewrite (num_or_falsy _ 3 H). split; reflexivity.
  - intros q Hq Hcfg. rewrite Hcfg. injection Hq as <-. reflexivity.
Qed.

Lemma create_zero_as_omitted_witness :
  speed (me (create {| cfg_x := 0; cfg_y := 0; cfg_texture := None;
                       cfg_speed := Some (Fin 0); cfg_jumpHeight := None;
                       cfg_health := Some (Fin (0 # 7)); cfg_scale := None |}
                    empty_scene)) = Fin 200.
Proof.
  apply (create_zero_as_omitted
           {| cfg_x := 0; cfg_y := 0; cfg_texture := None;
              cfg_speed := Some (Fin 0); cfg_jumpHeight := None;
              cfg_health := Some (Fin (0 # 7)); cfg_scale := None |} empty_scene).
  right. exists 0. split; reflexivity.
Defined.

End CharacterSpec.

(** ** The sprite factory *)

Module SpritesSpec.
Import Js JsFacts Sprites.

(** A selector that is left out takes the default of the parameter. *)
Definition supported (names : list string) (selector : option string) : Prop :=
  match selector with
  | Some name => In name names
  | None => True
  end.

(** The call returns an object, and the object is at [(x, y)]. *)
Definition placed_at {A : Type} (object_x object_y : A -> Q)
           (m : M A) (s : scene) (x y : Q) : Prop :=
  exists object,
    returns m s = Some object /\ object_x object = x /\ object_y object = y.

Ltac by_cases_on_selector H :=
  simpl in H;
  repeat (destruct H as [<- | H];
          [eexists; split; [reflexivity | split; reflexivity] |]);
  contradiction.

Lemma createCharacter_placed (x y : Q) (type : option string) (color : option Q)
      (s : scene) :
  placed_at ct_x ct_y (createCharacter x y type color) s x y.
Proof.
  unfold placed_at, returns, createCharacter.
  destruct (String.eqb (default "hero" type) "hero");
    [|destruct (String.eqb (default "hero" type) "enemy")];
    eexists; (split; [reflexivity | split; reflexivity]).
Qed.

Lemma createCollectible_placed (x y : Q) (type : option string) (s : scene) :
  placed_at ct_x ct_y (createCollectible x y type) s x y.
Proof.
  unfold placed_at, returns, createCollectible.
  destruct (String.eqb (default "coin" type) "coin");
    [|destruct (String.eqb (default "coin" type) "gem");
      [|destruct (String.eqb (default "coin" type) "star");
        [|destruct (String.eqb (default "coin" type) "heart")]]];
    eexists; (split; [reflexivity | split; reflexivity]).
Qed.

Lemma createParticleEffect_placed (x y : Q) (type : option string) (s : scene) :
  placed_at pe_x pe_y (createParticleEffect x y type) s x y.
Proof.
  unfold placed_at, returns, createParticleEffect.
  destruct (String.eqb (default "explosion" type) "explosion"
            || String.eqb (default "explosion" type) "splash");
    eexists; (split; [reflexivity | split; reflexivity]).
Qed.

Lemma createPlatform_placed (x y width height : Q) (style : option string)
      (s : scene) :
  supported platform_styles style ->
  placed_at ct_x ct_y (createPlatform x y width height style) s x y.
Proof.
  intros H. unfold placed_at. destruct style as [style|].
  - by_cases_on_selector H.
  - eexists; split; [reflexivity | split; reflexivity].
Qed.

Lemma placed_returns {A : Type} (fx fy : A -> Q) (m : M A) (s : scene) (x y : Q) :
  placed_at fx fy m s x y -> throws m s = false.
Proof.
  unfold placed_at, returns, throws. intros [object [H _]].
  now destruct (fst (m s)).
Qed.

Lemma createPlatform_unknown_style (x y width height : Q) (style : string)
      (s : scene) :
  ~ In style platform_styles ->
  ~ In style object_prototype_keys ->
  fst (createPlatform x y width height (Some style) s)
  = Thrown (TypeError "Cannot read properties of undefined (reading 'shadow')").
Proof.
  intros Hstyle Hproto.
  assert (Hget : get colors style = Undefined).
  { unfold colors, get. rewrite own_none by exact Hstyle.
    now apply inherited_undefined. }
  unfold createPlatform, default. rewrite Hget. reflexivity.
Qed.

Lemma eqb_false_of_not_in (name other : string) (names : list string) :
  ~ In name names -> In other names -> String.eqb name other = false.
Proof.
  intros Hnot Hin. apply String.eqb_neq. intros ->. contradiction.
Qed.

(** C3, as the specification has it, fails: [createPlatform] reads
    [palette.shadow] of the [undefined] that an unknown style selects, and
    throws, after it has created the container. *)
Lemma selector_fallbacks_counterexample :
  createPlatform 400 500 300 20 (Some "wood") empty_scene
  = (Thrown (TypeError "Cannot read properties of undefined (reading 'shadow')"),
     {| next_id := 1; textures := []; tweens := []; timers := [];
        destroyed := [] |}).
Proof. reflexivity. Qed.

(** C3, as the code has it.  [createCharacter], [createCollectible] and
    [createParticleEffect] return for every selector: a character type
    other than hero and enemy gives the shapes of the npc, a collectible
    type outside the four gives the empty container, a particle type
    outside the four gives an emitter with no configuration.
    [createPlatform] returns for its four styles, and throws a [TypeError]
    for a style that names no member of its colour table. *)
Theorem selector_fallbacks (x y : Q) (s : scene) :
  (forall type color, throws (createCharacter x y type color) s = false) /\
  (forall type color,
      ~ In type ["hero"; "enemy"] ->
      createCharacter x y (Some type) color s
      = createCharacter x y (Some "npc") color s) /\
  (forall type, throws (createCollectible x y type) s = false) /\
  (forall type,
      ~ In type collectible_types ->
      returns (createCollectible x y (Some type)) s
      = Some {| ct_id := next_id s; ct_x := x; ct_y := y; ct_children := [] |}) /\
  (forall type, throws (createParticleEffect x y type) s = false) /\
  (forall type,
      ~ In type particle_types ->
      ~ In type object_prototype_keys ->
      returns (createParticleEffect x y (Some type)) s
      = Some {| pe_id := S (next_id s); pe_x := x; pe_y := y;
                pe_texture := "particle"; pe_config := Undefined |}) /\
  (forall width height style,
      supported platform_styles style ->
      throws (createPlatform x y width height style) s = false) /\
  (forall width height style,
      ~ In style platform_styles ->
      ~ In style object_prototype_keys ->
      throws (createPlatform x y width height (Some style)) s = true).
Proof.
  repeat apply conj.
  - intros type color.
    exact (placed_returns _ _ _ _ _ _ (createCharacter_placed x y type color s)).
  - intros type color Hnot. unfold createCharacter, default.
    rewrite (eqb_false_of_not_in type "hero" _ Hnot) by (simpl; tauto).
    rewrite (eqb_false_of_not_in type "enemy" _ Hnot) by (simpl; tauto).
    reflexivity.
  - intros type.
    exact (placed_returns _ _ _ _ _ _ (createCollectible_placed x y type s)).
  - intros type Hnot. unfold returns, createCollectible, default.
    rewrite (eqb_false_of_not_in type "coin" _ Hnot) by (simpl; tauto).
    rewrite (eqb_false_of_not_in type "gem" _ Hnot) by (simpl; tauto).
    rewrite (eqb_false_of_not_in type "star" _ Hnot) by (simpl; tauto).
    rewrite (eqb_false_of_not_in type "heart" _ Hnot) by (simpl; tauto).
    reflexivity.
  - intros type.
    exact (placed_returns _ _ _ _ _ _ (createParticleEffect_placed x y type s)).
  - intros type Hnot Hproto.
    assert (Hget : get (configs x y) type = Undefined).
    { unfold configs, get. rewrite own_none by exact Hnot.
      now apply inherited_undefined. }
    unfold returns, createParticleEffect, default. rewrite Hget.
    rewrite (eqb_false_of_not_in type "explosion" _ Hnot) by (simpl; tauto).
    rewrite (eqb_false_of_not_in type "splash" _ Hnot) by (simpl; tauto).
    reflexivity.
  - intros width height style H.
    exact (placed_returns _ _ _ _ _ _
             (createPlatform_placed x y width height style s H)).
  - intros width height style Hstyle Hproto. unfold throws.
    now rewrite createPlatform_unknown_style.
Qed.

Lemma selector_fallbacks_witness :
  throws (createPlatform 400 500 300 20 (Some "glass")) empty_scene = true.
Proof.
  apply (selector_fallbacks 400 500 empty_scene).
  - simpl. intuition discriminate.
  - simpl. intuition discriminate.
Defined.

(** C5. Each construction operation, given a position and a supported
    sub-type (or none, for the default), returns an object, and the object
    is at the position given. *)
Theorem created_at_position (x y : Q) (s : scene) :
  (forall type color,
      supported character_types type ->
      placed_at ct_x ct_y (createCharacter x y type color) s x y) /\
  (forall width height style,
      supported platform_styles style ->
      placed_at ct_x ct_y (createPlatform x y width height style) s x y) /\
  (forall type,
      supported collectible_types type ->
      placed_at ct_x ct_y (createCollectible x y type) s x y) /\
  (forall emoji size,
      placed_at tx_x tx_y (createEmoji x y emoji size) s x y) /\
  (forall type,
      supported particle_types type ->
      placed_at pe_x pe_y (createParticleEffect x y type) s x y).
Proof.
  repeat apply conj.
  - intros type color _. apply createCharacter_placed.
  - intros width height style H. now apply createPlatform_placed.
  - intros type _. apply createCollectible_placed.
  - intros emoji size. eexists. split; [reflexivity | split; reflexivity].
  - intros type _. apply createParticleEffect_placed.
Qed.

Lemma created_at_position_witness :
  placed_at ct_x ct_y (createPlatform 400 500 300 20 (Some "ice")) empty_scene
            400 500.
Proof.
  apply (created_at_position 400 500 empty_scene).
  simpl. tauto.
Defined.

End SpritesSpec.

(** ** More on the preset selector *)

Module PresetsFacts.
Import Js JsFacts Presets PresetsSpec.

Lemma toLowerCase_app (s t : string) :
  toLowerCase (s ++ t) = toLowerCase s ++ toLowerCase t.
Proof. induction s as [|c s IH]; simpl; [reflexivity | now rewrite IH]. Qed.

Lemma append_assoc (s t u : string) : (s ++ t) ++ u = s ++ (t ++ u).
Proof. induction s as [|c s IH]; simpl; [reflexivity | now rewrite IH]. Qed.

Lemma occurs_ci_extend (keyword s pre post : string) :
  occurs_ci keyword s -> occurs_ci keyword (pre ++ s ++ post).
Proof.
  intros [a [b H]]. unfold occurs_ci.
  exists (toLowerCase pre ++ a), (b ++ toLowerCase post).
  rewrite !toLowerCase_app, H, !append_assoc. reflexivity.
Qed.

Lemma first_match_upto (desc : string) (before : list (string * list string))
      (e : string * list string) (after : list (string * list string)) :
  some_included desc (snd e) = true ->
  exists t, first_match desc (before ++ e :: after)%list = Some t /\
            In t (map fst (before ++ [e])%list).
Proof.
  intros He. induction before as [|[t ks] before IH]; simpl.
  - destruct e as [t ks]; simpl in *. rewrite He. exists t. split; [reflexivity | now left].
  - destruct (some_included desc ks).
    + exists t. split; [reflexivity | now left].
    + destruct IH as [t' [H1 H2]]. exists t'. split; [assumption | now right].
Qed.

(** Text around a description can only move the detected genre towards the
    head of the table: when a genre matches [s], the genre detected for
    any text that contains [s] is that genre or one declared before it. *)
Theorem detectGameType_extension (st : store) (s pre post : string)
        (before : list (string * list string)) (entry : string * list string)
        (after : list (string * list string)) :
  patterns = (before ++ entry :: after)%list ->
  genre_matches entry s ->
  In (result (detectGameType (pre ++ s ++ post)) st)
     (map fst (before ++ [entry])%list).
Proof.
  intros Hsplit [kw [Hin Hocc]].
  assert (He : In entry patterns).
  { rewrite Hsplit. apply in_or_app. right. now left. }
  assert (Hm : some_included (toLowerCase (pre ++ s ++ post)) (snd entry) = true).
  { apply genre_matches_iff; [assumption|].
    exists kw. split; [assumption | now apply occurs_ci_extend]. }
  destruct (first_match_upto _ before entry after Hm) as [t [Ht Hmem]].
  unfold result, detectGameType. rewrite Hsplit, Ht. exact Hmem.
Qed.

Lemma detectGameType_extension_witness :
  In (result (detectGameType ("a b" ++ "race" ++ "let for my dozen friends")) loaded)
     ["platformer"; "shooter"; "puzzle"; "rpg"; "racing"].
Proof.
  apply (detectGameType_extension loaded "race" "a b" "let for my dozen friends"
           [("platformer", ["platform"; "jump"; "mario"; "sonic"; "metroidvania"]);
            ("shooter", ["shoot"; "gun"; "bullet"; "space"; "shmup"; "nave"]);
            ("puzzle", ["puzzle"; "match"; "tetris"; "candy"; "quebra"]);
            ("rpg", ["rpg"; "adventure"; "quest"; "inventory"; "dungeon"])]
           ("racing", ["race"; "racing"; "car"; "speed"; "corrida"])
           [("zen", ["zen"; "calm"; "relax"; "meditation"; "peaceful"])]).
  - reflexivity.
  - exists "race". split; [simpl; tauto|]. exists "", "". reflexivity.
Defined.

Lemma lower_char_idempotent (c : ascii) : lower_char (lower_char c) = lower_char c.
Proof.
  destruct c as [b0 b1 b2 b3 b4 b5 b6 b7].
  destruct b0, b1, b2, b3, b4, b5, b6, b7; reflexivity.
Qed.

Lemma toLowerCase_idempotent (s : string) :
  toLowerCase (toLowerCase s) = toLowerCase s.
Proof.
  induction s as [|c s IH]; simpl; [reflexivity|].
  now rewrite lower_char_idempotent, IH.
Qed.

(** Putting the description in lower case beforehand does not change the
    genre detected. *)
Theorem detectGameType_lower_case (st : store) (description : string) :
  result (detectGameType (toLowerCase description)) st
  = result (detectGameType description) st.
Proof.
  unfold result, detectGameType. now rewrite toLowerCase_idempotent.
Qed.

(** The genre detected for a description always selects an entry of the
    table itself: indexing [GamePresets] with it, as the main scene does,
    and [getGamePreset] give the same fully populated preset, so the reads
    of [preset.physics.gravity.x] and [.y] find numbers. *)
Theorem detected_preset_populated (st : store) (description : string) :
  In (result (detectGameType description) st) genres /\
  get GamePresets (result (detectGameType description) st)
  = result (getGamePreset (result (detectGameType description) st)) loaded /\
  fully_populated (get GamePresets (result (detectGameType description) st))
  = true.
Proof.
  pose proof (detectGameType_declared st description) as H.
  split; [exact H|].
  revert H. generalize (result (detectGameType description) st). intros g H.
  simpl in H.
  repeat (destruct H as [<- | H]; [split; reflexivity |]). contradiction.
Qed.

(** Whatever the table holds, as long as its platformer entry is truthy
    [getGamePreset] never returns [undefined], [null] or another falsy
    value. *)
Theorem getGamePreset_truthy (st : store) (gameType : string) :
  truthy (get (st_GamePresets st) "platformer") = true ->
  truthy (result (getGamePreset gameType) st) = true.
Proof.
  intros H. rewrite getGamePreset_result. unfold or.
  destruct (truthy (get (st_GamePresets st) gameType)) eqn:E; assumption.
Qed.

Lemma getGamePreset_truthy_witness :
  truthy (result (getGamePreset "tower defense") loaded) = true.
Proof.
  apply (getGamePreset_truthy loaded "tower defense"). reflexivity.
Defined.

End PresetsFacts.



(** ** More on the base character *)

Module CharacterFacts.
Import Js Number Effect Effect.Notations EffectFacts Character Motion CharacterSpec.

Ltac open_world w := destruct w as [[] ?]; cbn [me sc live invulnerable] in *.

Ltac split_on_le :=
  match goal with
  | |- context [if num_le ?a ?b then _ else _] => destruct (num_le a b) eqn:?
  end.

Lemma takeDamage_leaves_invulnerable (amount : option num) (w : world) :
  live (me w) = true ->
  invulnerable (me (after (takeDamage amount) w)) = true.
Proof.
  intros H. open_world w. subst. unfold after, takeDamage.
  destruct invulnerable0; [reflexivity|].
  cbn -[num_le num_sub]. split_on_le; reflexivity.
Qed.

(** Invulnerability frames: on a character that has not been destroyed, a
    second hit that follows a first one at once returns and changes
    nothing. *)
Theorem takeDamage_twice (first second : option num) (w : world) :
  live (me w) = true ->
  takeDamage second (after (takeDamage first) w)
  = (Returned tt, after (takeDamage first) w).
Proof.
  intros H. apply takeDamage_ignored.
  now apply takeDamage_leaves_invulnerable.
Qed.

Lemma takeDamage_twice_witness :
  takeDamage (Some (Fin 2))
             (after (takeDamage (Some (Fin 1))) (create plain_config empty_scene))
  = (Returned tt,
     after (takeDamage (Some (Fin 1))) (create plain_config empty_scene)).
Proof.
  apply (takeDamage_twice (Some (Fin 1)) (Some (Fin 2))
           (create plain_config empty_scene)).
  reflexivity.
Defined.

(** Once the sprite is destroyed there are no such frames: each hit lowers
    the health and throws before the character turns invulnerable. *)
Lemma takeDamage_destroyed (amount : option num) (w : world) :
  live (me w) = false -> invulnerable (me w) = false ->
  returned (takeDamage amount) w = false /\
  health (me (after (takeDamage amount) w))
  = num_sub (health (me w)) (default (Fin 1) amount) /\
  invulnerable (me (after (takeDamage amount) w)) = false.
Proof.
  intros H1 H2. open_world w. subst. repeat split.
Qed.

Lemma firstn_length_app {A : Type} (pre post : list A) :
  firstn (List.length pre) (pre ++ post)%list = pre.
Proof. induction pre as [|x pre IH]; simpl; [now destruct post | now rewrite IH]. Qed.

Lemma skipn_length_app {A : Type} (pre post : list A) (x : A) :
  skipn (S (List.length pre)) (pre ++ x :: post)%list = post.
Proof. induction pre as [|y pre IH]; simpl; [reflexivity | exact IH]. Qed.

Lemma nth_error_length_app {A : Type} (pre post : list A) (x : A) :
  nth_error (pre ++ x :: post)%list (List.length pre) = Some x.
Proof. induction pre as [|y pre IH]; simpl; [reflexivity | exact IH]. Qed.

Lemma fire_at (w : world) (pre post : list (num * callback)) (d : num)
      (cb : callback) :
  timers (sc w) = (pre ++ (d, cb) :: post)%list ->
  fire (List.length pre) w
  = after (run_callback cb) (with_timers (pre ++ post)%list w).
Proof.
  intros H. unfold fire, with_timers, on_scene.
  rewrite H, nth_error_length_app, firstn_length_app, skipn_length_app.
  reflexivity.
Qed.

Lemma takeDamage_timers (amount : option num) (w : world) :
  live (me w) = true -> invulnerable (me w) = false ->
  exists post,
    timers (sc (after (takeDamage amount) w))
    = ((timers (sc w) ++ [(Fin 100, ClearTint)])
         ++ (Fin 1000, EndInvulnerability) :: post)%list.
Proof.
  intros H1 H2. open_world w. subst. unfold after, takeDamage.
  cbn -[num_le num_sub]. split_on_le.
  - eexists. cbn. rewrite <- app_assoc. reflexivity.
  - exists []. reflexivity.
Qed.

(** A hit on a vulnerable character that has not been destroyed makes it
    invulnerable; when the delayed call that the hit scheduled comes due,
    the character is vulnerable and opaque again, and a further hit then
    counts in full. *)
Theorem hit_then_recover (first second : option num) (w : world) :
  live (me w) = true ->
  invulnerable (me w) = false ->
  invulnerable (me (after (takeDamage first) w)) = true /\
  invulnerable (me (fire (S (List.length (timers (sc w))))
                         (after (takeDamage first) w)))
  = false /\
  alpha (me (fire (S (List.length (timers (sc w))))
                  (after (takeDamage first) w))) = Fin 1 /\
  health (me (after (takeDamage second)
                (fire (S (List.length (timers (sc w))))
                      (after (takeDamage first) w))))
  = num_sub (num_sub (health (me w)) (default (Fin 1) first))
            (default (Fin 1) second).
Proof.
  intros Hlive H. split; [now apply takeDamage_leaves_invulnerable|].
  destruct (takeDamage_timers first w Hlive H) as [post Hts].
  replace (S (List.length (timers (sc w))))
    with (List.length (timers (sc w) ++ [(Fin 100, ClearTint)])%list)
    by (rewrite List.length_app; simpl; lia).
  rewrite (fire_at _ _ _ _ _ Hts).
  split; [reflexivity | split; [reflexivity|]].
  match goal with |- health (me (after _ ?w')) = _ =>
    change (fst (vitals (after (takeDamage second) w'))
            = num_sub (num_sub (health (me w)) (default (Fin 1) first))
                      (default (Fin 1) second));
    rewrite takeDamage_vitals;
    change (invulnerable (me w')) with false;
    change (health (me w')) with (fst (vitals (after (takeDamage first) w)))
  end.
  rewrite takeDamage_vitals, H. reflexivity.
Qed.

Lemma hit_then_recover_witness :
  health (me (after (takeDamage (Some (Fin 2)))
                (fire (S (List.length (timers (sc (create plain_config empty_scene)))))
                      (after (takeDamage None) (create plain_config empty_scene)))))
  = num_sub (num_sub (health (me (create plain_config empty_scene)))
                     (default (Fin 1) None))
            (default (Fin 1) (Some (Fin 2))).
Proof.
  apply (hit_then_recover None (Some (Fin 2)) (create plain_config empty_scene));
    reflexivity.
Defined.

Lemma num_le_gt_zero (x : num) :
  x <> NaN -> num_le x 0 = negb (num_gt x 0).
Proof.
  destruct x as [q| | |]; cbn; try reflexivity; [|congruence].
  intros _. now destruct (Qle_bool q 0).
Qed.

(** A hit on a vulnerable character that has not been destroyed: if the
    character is alive after it, no tween starts; if it is not, and its
    health is a number, the death spin starts; and if the health has become
    [NaN], the character is not alive and yet no death starts. *)
Theorem death_when_not_alive (amount : option num) (w : world) :
  live (me w) = true ->
  invulnerable (me w) = false ->
  (isAlive (after (takeDamage amount) w) = true ->
   tweens (sc (after (takeDamage amount) w)) = tweens (sc w)) /\
  (isAlive (after (takeDamage amount) w) = false ->
   health (me (after (takeDamage amount) w)) <> NaN ->
   tweens (sc (after (takeDamage amount) w))
   = (tweens (sc w) ++ [DeathSpin])%list) /\
  (health (me (after (takeDamage amount) w)) = NaN ->
   isAlive (after (takeDamage amount) w) = false /\
   tweens (sc (after (takeDamage amount) w)) = tweens (sc w)).
Proof.
  intros H1 H2. unfold isAlive. open_world w. subst.
  unfold after, takeDamage. cbn -[num_le num_gt num_sub].
  set (h := num_sub health0 (default (Fin 1) amount)).
  split_on_le; cbn -[num_le num_gt num_sub]; fold h.
  - assert (Hn : h <> NaN) by (intros E; rewrite E in *; discriminate).
    pose proof (num_le_gt_zero h Hn) as Hg.
    match goal with H : num_le h _ = true |- _ => rewrite H in Hg end.
    destruct (num_gt h 0); [discriminate|].
    split; [discriminate|].
    split; [intros _ _; reflexivity | intros E; contradiction].
  - split; [intros _; reflexivity|]. split.
    + intros Hg Hn. pose proof (num_le_gt_zero h Hn) as Hle.
      rewrite Hg in Hle. cbn in Hle. congruence.
    + intros E. rewrite E. split; reflexivity.
Qed.

Lemma death_when_not_alive_witness :
  tweens (sc (after (takeDamage (Some (Fin 3))) (create plain_config empty_scene)))
  = (tweens (sc (create plain_config empty_scene)) ++ [DeathSpin])%list.
Proof.
  refine (proj1 (proj2 (death_when_not_alive (Some (Fin 3))
                          (create plain_config empty_scene) _ _)) _ _);
    (reflexivity || discriminate).
Defined.



Lemma powerUp_timers (duration : option num) (w : world) :
  live (me w) = true ->
  timers (sc (after (powerUp duration) w))
  = (timers (sc w)
       ++ [(default (Fin 5000) duration, EndPowerUp (speed (me w)))])%list.
Proof. intros H. open_world w. subst. now destruct trail0. Qed.

Lemma powerUp_speed (duration : option num) (w : world) :
  live (me w) = true ->
  speed (me (after (powerUp duration) w)) = num_mul (speed (me w)) 1.5.
Proof. intros H. open_world w. subst. now destruct trail0. Qed.

Lemma powerUp_live (duration : option num) (w : world) :
  live (me (after (powerUp duration) w)) = live (me w).
Proof. open_world w. now destruct live0, trail0. Qed.

Lemma run_callback_live (cb : callback) (w : world) :
  live (me (after (run_callback cb) w)) = live (me w).
Proof. open_world w. destruct cb; try reflexivity. now destruct live0, trail0. Qed.

Lemma run_callback_timers (cb : callback) (w : world) :
  timers (sc (after (run_callback cb) w)) = timers (sc w).
Proof. open_world w. destruct cb; try reflexivity. now destruct live0, trail0. Qed.

Lemma end_powerUp_result (originalSpeed : num) (w : world) :
  live (me w) = true ->
  speed (me (after (run_callback (EndPowerUp originalSpeed)) w)) = originalSpeed /\
  scale (me (after (run_callback (EndPowerUp originalSpeed)) w)) = Fin 1 /\
  trail (me (after (run_callback (EndPowerUp originalSpeed)) w)) = None /\
  tweens (sc (after (run_callback (EndPowerUp originalSpeed)) w)) = [].
Proof.
  intros H. open_world w. subst. destruct trail0; repeat split.
Qed.

(** On a character that has not been destroyed [powerUp] multiplies the
    speed by 1.5; when the reset that it scheduled comes due, the speed is
    exactly what it was before the power-up, the trail is gone and no
    tween of the character is left running (a death spin would be
    cancelled with the glow); the scale is 1, whatever it was before. *)
Theorem powerUp_reset (duration : option num) (w : world) :
  live (me w) = true ->
  speed (me (after (powerUp duration) w)) = num_mul (speed (me w)) 1.5 /\
  speed (me (fire (List.length (timers (sc w))) (after (powerUp duration) w)))
  = speed (me w) /\
  scale (me (fire (List.length (timers (sc w))) (after (powerUp duration) w)))
  = Fin 1 /\
  trail (me (fire (List.length (timers (sc w))) (after (powerUp duration) w)))
  = None /\
  tweens (sc (fire (List.length (timers (sc w))) (after (powerUp duration) w)))
  = [] /\
  timers (sc (fire (List.length (timers (sc w))) (after (powerUp duration) w)))
  = timers (sc w).
Proof.
  intros H. split; [now apply powerUp_speed|].
  rewrite (fire_at _ _ [] _ _ (powerUp_timers duration w H)).
  match goal with |- context [after (run_callback _) ?w'] =>
    assert (Hlive : live (me w') = true)
      by (change (live (me w')) with (live (me (after (powerUp duration) w)));
          now rewrite powerUp_live);
    destruct (end_powerUp_result (speed (me w)) w' Hlive) as [H1 [H2 [H3 H4]]]
  end.
  repeat split; try assumption.
  rewrite run_callback_timers. cbn. apply app_nil_r.
Qed.

Lemma powerUp_reset_witness :
  speed (me (fire (List.length (timers (sc (create plain_config empty_scene))))
                  (after (powerUp None) (create plain_config empty_scene))))
  = speed (me (create plain_config empty_scene)).
Proof.
  refine (proj1 (proj2 (powerUp_reset None (create plain_config empty_scene) _))).
  reflexivity.
Defined.

(** On a destroyed sprite [powerUp] sets the scale, destroys the trail it
    holds and throws in [addTrail]: the speed is not multiplied and no
    reset is scheduled. *)
Lemma powerUp_destroyed (duration : option num) (w : world) :
  live (me w) = false ->
  returned (powerUp duration) w = false /\
  speed (me (after (powerUp duration) w)) = speed (me w) /\
  timers (sc (after (powerUp duration) w)) = timers (sc w).
Proof. intros H. open_world w. subst. now destruct trail0. Qed.

(** Two power-ups that overlap on a character that has not been destroyed
    do not undo each other: once both resets have come due, in the order
    in which they were scheduled, the speed stays at one and a half times
    what it was before the first. *)
Theorem powerUp_overlap (first second : option num) (w : world) :
  live (me w) = true ->
  speed (me (fire (List.length (timers (sc w)))
               (fire (List.length (timers (sc w)))
                  (after (powerUp second) (after (powerUp first) w)))))
  = num_mul (speed (me w)) 1.5.
Proof.
  intros H.
  assert (H1 : live (me (after (powerUp first) w)) = true)
    by now rewrite powerUp_live.
  assert (H2 : timers (sc (after (powerUp second) (after (powerUp first) w)))
               = (timers (sc w)
                  ++ (default (Fin 5000) first, EndPowerUp (speed (me w)))
                  :: [(default (Fin 5000) second,
                       EndPowerUp (num_mul (speed (me w)) 1.5))])%list).
  { rewrite (powerUp_timers second _ H1), (powerUp_timers first _ H),
            (powerUp_speed first _ H), <- app_assoc.
    reflexivity. }
  rewrite (fire_at _ _ _ _ _ H2).
  match goal with |- context [fire _ ?w'] =>
    assert (H3 : timers (sc w')
                 = (timers (sc w)
                    ++ (default (Fin 5000) second,
                        EndPowerUp (num_mul (speed (me w)) 1.5))
                    :: [])%list)
      by (rewrite run_callback_timers; reflexivity);
    assert (H4 : live (me w') = true)
      by (rewrite run_callback_live;
          change (live (me (after (powerUp second) (after (powerUp first) w)))
                  = true);
          now rewrite powerUp_live);
    rewrite (fire_at _ _ _ _ _ H3)
  end.
  apply end_powerUp_result.
  match goal with H4 : live (me ?w') = true |- _ => exact H4 end.
Qed.

Lemma powerUp_overlap_witness :
  speed (me (fire (List.length (timers (sc (create plain_config empty_scene))))
               (fire (List.length (timers (sc (create plain_config empty_scene))))
                  (after (powerUp (Some (Fin 100)))
                     (after (powerUp None) (create plain_config empty_scene))))))
  = num_mul (speed (me (create plain_config empty_scene))) 1.5.
Proof.
  apply (powerUp_overlap None (Some (Fin 100)) (create plain_config empty_scene)).
  reflexivity.
Defined.

(** *** The trail emitter *)

(** Every trail emitter alive is the one that [this.trail] holds, and there
    is at most one. *)
Definition trail_tracked (w : world) : Prop :=
  trail_emitters w = [] \/
  exists id e, trail_emitters w = [(id, e)] /\ trail (me w) = Some id.

(** The trail emitters and the trail that the character holds. *)
Definition trails (w : world) : list (nat * emitter) * option nat :=
  (trail_emitters w, trail (me w)).

Lemma tracked_same (w w' : world) :
  trails w' = trails w -> trail_tracked w -> trail_tracked w'.
Proof. unfold trail_tracked, trails. intros [= -> ->]. tauto. Qed.

Lemma frames_tracked {A : Type} (m : M world A) :
  frames trails m -> preserves trail_tracked m.
Proof. apply frames_preserves. exact tracked_same. Qed.

Lemma add_particles_trails (x y : num) (k : emitter_kind) :
  is_trail k = false -> frames trails (add_particles x y k).
Proof.
  intros Hk w. unfold trails, trail_emitters, after, add_particles, bind,
    this_scene. destruct (live (me w)); [|reflexivity].
  cbn. rewrite filter_app. cbn. rewrite Hk. now rewrite app_nil_r.
Qed.

Ltac frame_trails :=
  repeat first
    [ apply frames_ret
    | apply frames_read
    | apply add_particles_trails; reflexivity
    | apply frames_bind; [|intros ?]
    | match goal with
      | |- frames _ (if ?b then _ else _) => destruct b
      end
    | solve [frame_call] ].

Lemma die_trails : frames trails die.
Proof. unfold die. frame_trails. Qed.

Lemma takeDamage_trails (amount : option num) : frames trails (takeDamage amount).
Proof. unfold takeDamage, flashRed, die. cbv zeta. frame_trails. Qed.

Lemma heal_trails (amount : option num) : frames trails (heal amount).
Proof. unfold heal, flashGreen. cbv zeta. frame_trails. Qed.

Lemma filter_filter_comm {A : Type} (p q : A -> bool) (l : list A) :
  filter p (filter q l) = filter q (filter p l).
Proof.
  induction l as [|x l IH]; simpl; [reflexivity|].
  destruct (p x) eqn:Ep, (q x) eqn:Eq; simpl; rewrite ?Ep, ?Eq, IH; reflexivity.
Qed.

Lemma trail_emitters_destroy (id : nat) (w : world) :
  trail_emitters (after (destroy_emitter id) w)
  = filter (fun e => negb (Nat.eqb (fst e) id)) (trail_emitters w).
Proof. unfold trail_emitters. cbn. apply filter_filter_comm. Qed.

Lemma tracked_destroy (id : nat) : preserves trail_tracked (destroy_emitter id).
Proof.
  intros w. unfold trail_tracked. rewrite trail_emitters_destroy.
  change (trail (me (after (destroy_emitter id) w))) with (trail (me w)).
  intros [-> | [i [e [-> Ht]]]].
  - now left.
  - simpl. destruct (negb (Nat.eqb i id)).
    + right. now exists i, e.
    + now left.
Qed.

(** Destroying the trail that the character holds leaves no trail. *)
Lemma no_trail_after_destroy (w : world) (id : nat) :
  trail_tracked w -> trail (me w) = Some id ->
  trail_emitters (after (destroy_emitter id) w) = [].
Proof.
  intros H Ht. rewrite trail_emitters_destroy.
  destruct H as [-> | [i [e [-> Hi]]]]; [reflexivity|].
  rewrite Ht in Hi. injection Hi as <-. simpl. now rewrite Nat.eqb_refl.
Qed.

Lemma no_trail_without_holder (w : world) :
  trail_tracked w -> trail (me w) = None -> trail_emitters w = [].
Proof. intros [H | [i [e [_ Hi]]]] Ht; [exact H | congruence]. Qed.

Lemma tracked_addTrail (color : option num) :
  preserves trail_tracked (addTrail color).
Proof.
  intros w H. unfold addTrail. cbv zeta.
  rewrite after_bind. cbn [read fst after snd].
  rewrite after_bind.
  set (w1 := after match trail (me w) with
                   | Some id => destroy_emitter id
                   | None => ret tt
                   end w).
  assert (Hnone : trail_emitters w1 = []).
  { subst w1. destruct (trail (me w)) as [id|] eqn:Et.
    - now apply no_trail_after_destroy.
    - now apply no_trail_without_holder. }
  assert (Hret : fst (match trail (me w) with
                      | Some id => destroy_emitter id
                      | None => ret tt
                      end w) = Returned tt)
    by (destruct (trail (me w)); reflexivity).
  rewrite Hret. clearbody w1.
  unfold after, add_particles, bind, this_scene, modify, trail_tracked,
    trail_emitters in *.
  destruct (live (me w1)); cbn.
  - right. rewrite filter_app, Hnone. cbn. eexists _, _. split; reflexivity.
  - left. exact Hnone.
Qed.

Lemma tracked_powerUp (duration : option num) :
  preserves trail_tracked (powerUp duration).
Proof.
  unfold powerUp. cbv zeta.
  apply preserves_bind; [apply frames_tracked; frame_trails | intros ?].
  apply preserves_bind; [apply tracked_addTrail | intros ?].
  apply frames_tracked. frame_trails.
Qed.

Lemma tracked_end_powerUp (originalSpeed : num) :
  preserves trail_tracked (run_callback (EndPowerUp originalSpeed)).
Proof.
  unfold run_callback.
  apply preserves_bind; [apply frames_tracked; frame_trails | intros ?].
  apply preserves_bind; [apply frames_tracked; frame_trails | intros ?].
  intros w H. rewrite after_bind. cbn [read fst after snd].
  rewrite after_bind.
  destruct (trail (me w)) as [id|] eqn:Et.
  - change (fst ((destroy_emitter id ;;; modify (on_me (set_trail None))) w))
      with (@Returned unit tt).
    apply (frames_tracked killTweensOf_this); [frame_trails|].
    left. exact (no_trail_after_destroy w id H Et).
  - change (fst (@ret world unit tt w)) with (@Returned unit tt).
    apply (frames_tracked killTweensOf_this); [frame_trails|]. exact H.
Qed.

Lemma tracked_run_callback (cb : callback) :
  preserves trail_tracked (run_callback cb).
Proof.
  destruct cb.
  - apply frames_tracked. unfold run_callback. frame_trails.
  - apply frames_tracked. unfold run_callback. frame_trails.
  - apply tracked_destroy.
  - apply tracked_end_powerUp.
Qed.

Lemma tracked_fire (n : nat) (w : world) :
  trail_tracked w -> trail_tracked (fire n w).
Proof.
  intros H. unfold fire. destruct (nth_error (timers (sc w)) n) as [[d cb]|];
    [|exact H].
  apply tracked_run_callback. revert H. apply tracked_same. reflexivity.
Qed.

Lemma tracked_complete (n : nat) (w : world) :
  trail_tracked w -> trail_tracked (complete n w).
Proof.
  unfold complete. destruct (nth_error (tweens (sc w)) n) as [[| |]|];
    try exact (fun H => H); apply tracked_same; reflexivity.
Qed.

Lemma tracked_act (a : action) (w : world) :
  trail_tracked w -> trail_tracked (act a w).
Proof.
  intros H. destruct a as [[amount|amount|duration|n|n]|color|]; cbn [act step].
  - exact (frames_tracked _ (takeDamage_trails amount) w H).
  - exact (frames_tracked _ (heal_trails amount) w H).
  - now apply tracked_powerUp.
  - now apply tracked_fire.
  - now apply tracked_complete.
  - now apply tracked_addTrail.
  - exact (frames_tracked _ die_trails w H).
Qed.

(** No trail leaks: from a scene without trail emitters, after any sequence
    of hits, heals, power-ups, [addTrail] and [die] calls, returning or
    throwing, and of delayed calls coming due and tweens completing, at
    most one trail emitter is alive, and it is the one that [this.trail]
    holds. *)
Theorem one_trail (config : CharacterConfig) (s : scene) (acts : list action) :
  filter (fun e => is_trail (em_kind (snd e))) (emitters s) = [] ->
  le (List.length (trail_emitters (run_actions acts (create config s)))) 1 /\
  (forall id e,
      In (id, e) (trail_emitters (run_actions acts (create config s))) ->
      trail (me (run_actions acts (create config s))) = Some id).
Proof.
  intros Hs.
  assert (H : trail_tracked (run_actions acts (create config s))).
  { assert (H0 : trail_tracked (create config s)) by (left; exact Hs).
    revert H0. generalize (create config s).
    induction acts as [|a rest IH]; intros w Hw; simpl; [exact Hw|].
    apply IH. now apply tracked_act. }
  destruct H as [-> | [i [e [-> Ht]]]]; simpl.
  - split; [lia | intros ? ? []].
  - split; [lia|]. intros id e' [[= <- <-] | []]. exact Ht.
Qed.

Lemma one_trail_witness :
  le (List.length
        (trail_emitters
           (run_actions [Method (PowerUp None); AddTrail None;
                         Method (PowerUp (Some (Fin 100)))]
                        (create plain_config empty_scene)))) 1.
Proof.
  refine (proj1 (one_trail plain_config empty_scene
                   [Method (PowerUp None); AddTrail None;
                    Method (PowerUp (Some (Fin 100)))] _)).
  reflexivity.
Defined.

End CharacterFacts.

(** ** Movement and jumping *)

Module MotionSpec.
Import Js Number Effect Effect.Notations EffectFacts Character Motion CharacterSpec.

Ltac open_actor a :=
  destruct a as [[[] ?] ? []];
  unfold onGround in *;
  cbn [self me sc live phys flipX blocked_down touching_down] in *.

(** One double jump per flight: a jump from the ground takes off at the
    jump height; once the engine has lifted the body, [jump(true)] takes
    off again at eight tenths of it; and every jump call after that is
    ignored while the body stays in the air. *)
Theorem double_jump_once (b1 b3 : option bool) (a : actor) :
  onGround a = true ->
  let a1 := after (jump b1) a in
  let a2 := after (jump (Some true)) (with_ground false false a1) in
  velocity_y (phys a1) = num_neg (jumpHeight (me (self a))) /\
  isJumping (me (self a1)) = true /\
  velocity_y (phys a2) = num_mul (num_neg (jumpHeight (me (self a)))) 0.8 /\
  isJumping (me (self a2)) = false /\
  jump b3 a2 = (Returned tt, a2).
Proof.
  intros H. cbv zeta. open_actor a.
  apply andb_true_iff in H. destruct H as [-> H].
  unfold after, jump, bind, read, onGround. cbn -[num_mul num_neg num_add].
  rewrite H. cbn -[num_mul num_neg num_add].
  rewrite andb_false_r.
  repeat split; reflexivity.
Qed.

Definition standing : actor :=
  with_ground true false (spawn plain_config empty_scene).

Lemma double_jump_once_witness :
  velocity_y (phys (after (jump None) standing))
  = num_neg (jumpHeight (me (self standing))).
Proof.
  refine (proj1 (double_jump_once None (Some true) standing _)).
  reflexivity.
Defined.

(** A character that [update] has seen on the ground and that then leaves
    it without jumping cannot jump in the air, double jump allowed or
    not. *)
Theorem no_jump_after_walking_off (b : option bool) (a : actor) :
  onGround a = true ->
  jump b (with_ground false false (after update a))
  = (Returned tt, with_ground false false (after update a)).
Proof.
  intros H. open_actor a.
  apply andb_true_iff in H. destruct H as [-> H].
  unfold after, update, jump, bind, read, onGround. cbn -[num_is_zero].
  rewrite H. cbn -[num_is_zero].
  destruct (num_is_zero velocity_x0); cbn; now rewrite andb_false_r.
Qed.

Lemma no_jump_after_walking_off_witness :
  jump (Some true) (with_ground false false (after update standing))
  = (Returned tt, with_ground false false (after update standing)).
Proof.
  apply (no_jump_after_walking_off (Some true) standing). reflexivity.
Defined.

(** The sprite is flipped exactly when the character faces left. *)
Definition flip_follows_facing (a : actor) : Prop :=
  flipX a = match facing (me (self a)) with left => true | right => false end.

Definition heading (w : world) : side := facing (me w).

Lemma powerUp_heading (duration : option num) : frames heading (powerUp duration).
Proof. unfold powerUp, addTrail. cbv zeta. frame. Qed.

Lemma act_facing (x : action) (w : world) :
  facing (me (act x w)) = facing (me w).
Proof.
  change (heading (act x w) = heading w).
  destruct x as [[amount|amount|duration|n|n]|color|]; cbn [act step].
  - assert (H : frames heading (takeDamage amount))
      by (unfold takeDamage, flashRed, die; cbv zeta; frame).
    apply H.
  - assert (H : frames heading (heal amount))
      by (unfold heal, flashGreen; cbv zeta; frame).
    apply H.
  - apply powerUp_heading.
  - unfold fire. destruct (nth_error (timers (sc w)) n) as [[d cb]|];
      [|reflexivity].
    assert (H : frames heading (run_callback cb))
      by (destruct cb; unfold run_callback; frame).
    now rewrite H.
  - unfold complete. destruct (nth_error (tweens (sc w)) n) as [[| |]|];
      reflexivity.
  - assert (H : frames heading (addTrail color))
      by (unfold addTrail; cbv zeta; frame).
    apply H.
  - assert (H : frames heading die) by (unfold die; frame).
    apply H.
Qed.

Lemma drive_keeps_flip (m : motion) (a : actor) :
  flip_follows_facing a -> flip_follows_facing (drive m a).
Proof.
  unfold flip_follows_facing. intros H.
  destruct m as [[| |]|b| |blocked touching|x]; cbn [drive].
  - open_actor a. destruct live0; [reflexivity | exact H].
  - open_actor a. destruct live0; [reflexivity | exact H].
  - open_actor a. destruct live0; exact H.
  - open_actor a. unfold after, jump, bind, read, onGround.
    cbn -[num_mul num_neg num_add].
    destruct live0, blocked_down0, touching_down0, (default false b),
      isJumping0; exact H.
  - open_actor a. unfold after, update, bind, read, onGround.
    destruct live0, blocked_down0, touching_down0; cbn -[num_is_zero];
      destruct (num_is_zero velocity_x0); exact H.
  - exact H.
  - cbn [flipX self]. now rewrite act_facing.
Qed.

(** Whatever a new character is made to do (moves, jumps, updates, hits,
    heals, power-ups), returning or throwing, and whatever the engine does
    to it (ground contact, delayed calls coming due, tweens completing, the
    destruction that ends the death spin), its sprite is flipped exactly
    when it faces left. *)
Theorem flip_invariant (config : CharacterConfig) (s : scene) (ms : list motion) :
  flip_follows_facing (drive_all ms (spawn config s)).
Proof.
  assert (H : flip_follows_facing (spawn config s)) by reflexivity.
  revert H. generalize (spawn config s).
  induction ms as [|m rest IH]; intros a H; simpl; [exact H|].
  apply IH. now apply drive_keeps_flip.
Qed.

End MotionSpec.

(** ** More on the sprite factory *)

Module SpritesFacts.
Import Js JsFacts Sprites SpritesSpec.

(** The [color] argument of [createCharacter] matters for the hero only:
    every other type, supported or not, is drawn in fixed colours. *)
Theorem color_only_for_hero (x y : Q) (type : string) (c1 c2 : option Q)
        (s : scene) :
  type <> "hero" ->
  createCharacter x y (Some type) c1 s = createCharacter x y (Some type) c2 s.
Proof.
  intros H. apply String.eqb_neq in H.
  unfold createCharacter, default. rewrite H. reflexivity.
Qed.

Lemma color_only_for_hero_witness :
  createCharacter 10 20 (Some "enemy") (Some 0xff00ff) empty_scene
  = createCharacter 10 20 (Some "enemy") None empty_scene.
Proof.
  apply (color_only_for_hero 10 20 "enemy" (Some 0xff00ff) None empty_scene).
  discriminate.
Defined.

(** A style that names a member of [Object.prototype] is not rejected:
    [createPlatform] returns a platform whose three rectangles have no
    fill colour. *)
Theorem createPlatform_inherited_style (x y width height : Q) (style : string)
        (s : scene) :
  In style object_prototype_keys ->
  returns (createPlatform x y width height (Some style)) s
  = Some {| ct_id := next_id s; ct_x := x; ct_y := y;
            ct_children :=
              [ {| pr_id := S (next_id s);
                   pr_shape := Rectangle 2 2 width height Undefined (Some 0.5) |};
                {| pr_id := S (S (next_id s));
                   pr_shape := Rectangle 0 0 width height Undefined None |};
                {| pr_id := S (S (S (next_id s)));
                   pr_shape := Rectangle 0 (- height / 4) (width - 4) 2
                                         Undefined None |} ] |}.
Proof.
  intros H. simpl in H.
  repeat (destruct H as [<- | H]; [reflexivity |]). contradiction.
Qed.

Lemma createPlatform_inherited_style_witness :
  returns (createPlatform 400 500 300 20 (Some "toString")) empty_scene
  = Some {| ct_id := 0; ct_x := 400; ct_y := 500;
            ct_children :=
              [ {| pr_id := 1;
                   pr_shape := Rectangle 2 2 300 20 Undefined (Some 0.5) |};
                {| pr_id := 2;
                   pr_shape := Rectangle 0 0 300 20 Undefined None |};
                {| pr_id := 3;
                   pr_shape := Rectangle 0 (- 20 / 4) (300 - 4) 2
                                         Undefined None |} ] |}.
Proof.
  apply (createPlatform_inherited_style 400 500 300 20 "toString" empty_scene).
  simpl. tauto.
Defined.

(** What [createParticleEffect] asks of the scene besides the emitter: at
    every call it draws the particle texture anew on a scratch graphics
    object, which it destroys; it schedules the destruction of the emitter
    it returns, after 1000 ms, for an explosion or a splash (or when the
    type is left out), and for no other type, supported or not. *)
Theorem particle_effect_cleanup (x y : Q) (type : option string) (s : scene) :
  textures (snd (createParticleEffect x y type s))
  = (textures s ++ [("particle", 4, 4)])%list /\
  destroyed (snd (createParticleEffect x y type s))
  = (destroyed s ++ [next_id s])%list /\
  tweens (snd (createParticleEffect x y type s)) = tweens s /\
  (supported ["explosion"; "splash"] type ->
   timers (snd (createParticleEffect x y type s))
   = (timers s ++ [(1000, S (next_id s))])%list /\
   option_map pe_id (returns (createParticleEffect x y type) s)
   = Some (S (next_id s))) /\
  (forall t, type = Some t -> ~ In t ["explosion"; "splash"] ->
   timers (snd (createParticleEffect x y type s)) = timers s).
Proof.
  unfold returns, createParticleEffect.
  repeat apply conj.
  - destruct (String.eqb (default "explosion" type) "explosion"
              || String.eqb (default "explosion" type) "splash"); reflexivity.
  - destruct (String.eqb (default "explosion" type) "explosion"
              || String.eqb (default "explosion" type) "splash"); reflexivity.
  - destruct (String.eqb (default "explosion" type) "explosion"
              || String.eqb (default "explosion" type) "splash"); reflexivity.
  - destruct type as [t|]; [|split; reflexivity].
    cbn [supported In]. intros [<- | [<- | []]]; split; reflexivity.
  - intros t -> Hnot. cbn [default].
    rewrite (eqb_false_of_not_in t "explosion" _ Hnot) by (simpl; tauto).
    rewrite (eqb_false_of_not_in t "splash" _ Hnot) by (simpl; tauto).
    reflexivity.
Qed.

Lemma particle_effect_cleanup_witness :
  timers (snd (createParticleEffect 10 20 (Some "magic") empty_scene))
  = timers empty_scene.
Proof.
  refine (proj2 (proj2 (proj2 (proj2
            (particle_effect_cleanup 10 20 (Some "magic") empty_scene))))
            "magic" eq_refl _).
  simpl. intuition discriminate.
Defined.

(** *** The factory only adds to the scene *)




















End SpritesFacts.
